(** * sqs-list-filled-queues: a shallow embedding of [sqs_list_filled_queues.py]

    The script lists the SQS queues that hold messages.  It talks to three
    collaborators that are not part of the repository: the boto3 SQS client,
    Python's [re] module and the thread pool of [concurrent.futures].  They
    are taken as parameters of the embedding (records of operations); the
    functions of the script itself are translated one by one, with the
    terminal, the network and the keyboard threaded through an explicit
    world. *)

From Stdlib Require Import ZArith Ascii String List Lia Permutation Sorted.
From stdpp Require Import base numbers option list strings gmap.

Local Open Scope string_scope.
Local Open Scope Z_scope.

(** ** Python built-ins used by the script *)

Module Py.

(** Characters the script spells with escapes. *)
Definition ESC : ascii := ascii_of_nat 27.
Definition CR : string := String (ascii_of_nat 13) EmptyString.
Definition LF : string := String (ascii_of_nat 10) EmptyString.

(** [len(s)] *)
Definition len (s : string) : Z := Z.of_nat (String.length s).

(** [ch * n] for a one-character string: [n] copies. *)
Fixpoint replicate_char (n : nat) (c : ascii) : string :=
  match n with
  | O => EmptyString
  | S n' => String c (replicate_char n' c)
  end.

(** [s.ljust(width)]: pad with spaces on the right up to [width];
    a string that is already that long is returned as it is. *)
Definition ljust (s : string) (width : Z) : string :=
  s +:+ replicate_char (Z.to_nat (width - len s)) " ".

(** [s.rjust(width)]: pad with spaces on the left. *)
Definition rjust (s : string) (width : Z) : string :=
  replicate_char (Z.to_nat (width - len s)) " " +:+ s.

(** [str(n)] for an integer: decimal digits, most significant first, with
    a leading minus sign for a negative number. *)
Definition digit_char (d : Z) : ascii := ascii_of_nat (48 + Z.to_nat d).

Fixpoint digits_from (fuel : nat) (n : Z) (acc : string) : string :=
  match fuel with
  | O => acc
  | S fuel' =>
      let acc' := String (digit_char (n mod 10)) acc in
      if n <? 10 then acc' else digits_from fuel' (n / 10) acc'
  end.

(** A number below [2^k] has at most [k] decimal digits, so the binary
    logarithm is enough fuel ([digits_denote] below). *)
Definition digits (n : Z) : string :=
  digits_from (S (Z.to_nat (Z.log2 n))) n EmptyString.

Definition str (n : Z) : string :=
  if n <? 0 then String "-" (digits (- n)) else digits n.

(** [int(s)] for a string of ASCII characters: optional surrounding
    whitespace (tab, line feed, vertical tab, form feed, carriage return,
    space), an optional sign, then decimal digits that may be separated by
    single underscores.  [None] stands for [ValueError].  Strings with
    characters beyond ASCII, among which Python knows more digits and
    spaces, and strings of more than 4300 characters, which Python may
    refuse for their length alone, are outside this model. *)
Definition is_space (c : ascii) : bool :=
  let n := N_of_ascii c in
  ((9 <=? n) && (n <=? 13) || (n =? 32))%N.

Definition digit_val (c : ascii) : option Z :=
  let n := Z.of_N (N_of_ascii c) in
  if (48 <=? n) && (n <=? 57) then Some (n - 48) else None.

Fixpoint lstrip (s : string) : string :=
  match s with
  | String c s' => if is_space c then lstrip s' else s
  | EmptyString => s
  end.

Definition rstrip (s : string) : string :=
  String.rev (lstrip (String.rev s)).

(** [after_digit] tells whether the previous character was a digit: an
    underscore is accepted only between two digits. *)
Fixpoint parse_digits (s : string) (acc : Z) (after_digit : bool) : option Z :=
  match s with
  | EmptyString => if after_digit then Some acc else None
  | String c s' =>
      match digit_val c with
      | Some d => parse_digits s' (10 * acc + d) true
      | None =>
          if Ascii.eqb c "_" && after_digit then parse_digits s' acc false
          else None
      end
  end.

Definition int (s : string) : option Z :=
  match rstrip (lstrip s) with
  | String "-" s' => Z.opp <$> parse_digits s' 0 false
  | String "+" s' => parse_digits s' 0 false
  | s' => parse_digits s' 0 false
  end.

(** Is every character of the string an ASCII character? *)
Fixpoint is_ascii (s : string) : bool :=
  match s with
  | EmptyString => true
  | String c s' => (N_of_ascii c <? 128)%N && is_ascii s'
  end.

Fixpoint contains (c : ascii) (s : string) : bool :=
  match s with
  | EmptyString => false
  | String d s' => Ascii.eqb c d || contains c s'
  end.

(** [repr(s)] for a string of ASCII characters: between single quotes, or
    between double quotes when the string has a single quote and no double
    quote; the quote in use and the backslash are escaped, tab, line feed
    and carriage return are written [\t], [\n], [\r], and the other
    control characters [\xhh]. *)
Definition SQUOTE : ascii := ascii_of_nat 39.
Definition DQUOTE : ascii := ascii_of_nat 34.
Definition BACKSLASH : ascii := ascii_of_nat 92.

Definition hex_lower (n : N) : ascii :=
  if (n <? 10)%N then ascii_of_N (48 + n) else ascii_of_N (87 + n).

Definition repr_char (quote c : ascii) : string :=
  let n := N_of_ascii c in
  if Ascii.eqb c quote || Ascii.eqb c BACKSLASH then String BACKSLASH (String c EmptyString)
  else if (n =? 9)%N then String BACKSLASH "t"
  else if (n =? 10)%N then String BACKSLASH "n"
  else if (n =? 13)%N then String BACKSLASH "r"
  else if ((n <? 32) || (n =? 127))%N then
    String BACKSLASH (String "x" (String (hex_lower (n / 16))
                                    (String (hex_lower (n mod 16)) EmptyString)))
  else String c EmptyString.

Fixpoint repr_body (quote : ascii) (s : string) : string :=
  match s with
  | EmptyString => EmptyString
  | String c s' => repr_char quote c +:+ repr_body quote s'
  end.

Definition repr (s : string) : string :=
  let quote := if contains SQUOTE s && negb (contains DQUOTE s) then DQUOTE else SQUOTE in
  String quote (repr_body quote s +:+ String quote EmptyString).

(** The first [n] characters of a string: what a precision does to a
    formatted argument ([%.200R]). *)
Fixpoint take_chars (n : nat) (s : string) : string :=
  match n, s with
  | S n', String c s' => String c (take_chars n' s')
  | _, _ => EmptyString
  end.

(** [s.lower()], on ASCII letters. *)
Definition lower_char (c : ascii) : ascii :=
  let n := N_of_ascii c in
  if ((65 <=? n) && (n <=? 90))%N then ascii_of_N (n + 32) else c.

Fixpoint lower (s : string) : string :=
  match s with
  | EmptyString => EmptyString
  | String c s' => String (lower_char c) (lower s')
  end.

(** [s.split('/')[-1]]: the text after the last slash, the whole string
    when it has no slash. *)
Fixpoint split_slash (s : string) (cur : string) : list string :=
  match s with
  | EmptyString => [String.rev cur]
  | String c s' =>
      if Ascii.eqb c "/" then String.rev cur :: split_slash s' EmptyString
      else split_slash s' (String c cur)
  end.

Definition split (s : string) : list string := split_slash s EmptyString.

Definition last_segment (s : string) : string := List.last (split s) EmptyString.

(** [urllib.parse.quote(s, safe='')]: letters, digits and [_.-~] stay,
    every other byte becomes [%XX] with upper-case hexadecimal digits. *)
Definition is_unreserved (c : ascii) : bool :=
  let n := N_of_ascii c in
  ((48 <=? n) && (n <=? 57) || (65 <=? n) && (n <=? 90)
   || (97 <=? n) && (n <=? 122)
   || (n =? 95) || (n =? 46) || (n =? 45) || (n =? 126))%N.

Definition hex_digit (n : N) : ascii :=
  if (n <? 10)%N then ascii_of_N (48 + n) else ascii_of_N (55 + n).

Fixpoint quote (s : string) : string :=
  match s with
  | EmptyString => EmptyString
  | String c s' =>
      if is_unreserved c then String c (quote s')
      else
        let n := N_of_ascii c in
        String "%" (String (hex_digit (n / 16)) (String (hex_digit (n mod 16)) (quote s')))
  end.

End Py.

(** ** Exceptions and results *)

(** The exceptions that can travel through the script.  [SystemExit] is what
    [sys.exit] raises; [QueueDoesNotExist] is the one service error that
    [check_queue] handles, [ClientError] stands for every other failure of a
    service call. *)
Inductive exn : Type :=
| SystemExit (code : Z)
| KeyboardInterrupt
| QueueDoesNotExist
| ClientError (code : string)
| KeyError (key : string)
| ValueError (msg : string).

Inductive result (A : Type) : Type :=
| Ret (a : A)
| Exc (e : exn).
Arguments Ret {A} a.
Arguments Exc {A} e.

(** ** The world: terminal, keyboard and network *)

(** What the wait of one second on the keyboard can bring: nothing, a
    character, the end of the input, or the interrupt signal. *)
Inductive key_event : Type :=
| NoKey
| Key (c : ascii)
| Eof
| CtrlC.

Inductive tty_mode : Type := Cooked | Cbreak.

(** Everything the script does to the outside, in the order it happens. *)
Inductive event : Type :=
| Write (text : string)
| ClearScreen
| ListQueues
| GetQueueAttributes (queue_url : string) (attribute_names : list string)
| Select.

Record World : Type := {
  trace : list event;
  stdin : list key_event;
  tty : tty_mode
}.

Definition is_network_call (e : event) : bool :=
  match e with
  | ListQueues | GetQueueAttributes _ _ => true
  | _ => false
  end.

Definition is_fetch (e : event) : bool :=
  match e with
  | GetQueueAttributes _ _ => true
  | _ => false
  end.

Definition is_keyboard_wait (e : event) : bool :=
  match e with
  | Select => true
  | _ => false
  end.

(** ** A state and exception monad over the world *)

Definition M (A : Type) : Type := World → result A * World.

#[global] Instance M_ret : MRet M := λ A a w, (Ret a, w).

#[global] Instance M_bind : MBind M := λ A B f m w,
  match m w with
  | (Ret a, w') => f a w'
  | (Exc e, w') => (Exc e, w')
  end.

Definition raise {A : Type} (e : exn) : M A := λ w, (Exc e, w).

(** Run a computation and hand back how it ended instead of propagating:
    the shape of [try: ... except ...] and of a future. *)
Definition attempt {A : Type} (m : M A) : M (result A) := λ w,
  let '(r, w') := m w in (Ret r, w').

(** [try: body finally: final] *)
Definition try_finally {A : Type} (body : M A) (final : M unit) : M A := λ w,
  let '(r, w1) := body w in
  match final w1 with
  | (Ret _, w2) => (r, w2)
  | (Exc e, w2) => (Exc e, w2)
  end.

(** A [for] loop whose body may [return]: [Some b] leaves the loop with
    [b], [None] goes on with the next element. *)
Fixpoint for_loop {A B : Type} (xs : list A) (body : A → M (option B)) : M (option B) :=
  match xs with
  | [] => mret None
  | x :: xs' =>
      r ← body x;
      match r with
      | Some b => mret (Some b)
      | None => for_loop xs' body
      end
  end.

Fixpoint for_each {A : Type} (xs : list A) (body : A → M unit) : M unit :=
  match xs with
  | [] => mret ()
  | x :: xs' => _ ← body x; for_each xs' body
  end.

Definition emit (e : event) : M unit := λ w,
  (Ret (), {| trace := trace w ++ [e]; stdin := stdin w; tty := tty w |}).

(** [print(text, end=end_)] *)
Definition print_end (text end_ : string) : M unit := emit (Write (text +:+ end_)).

(** [print(text)] *)
Definition print (text : string) : M unit := print_end text Py.LF.

(** [os.system('clear' if os.name == 'posix' else 'cls')] *)
Definition os_system_clear : M unit := emit ClearScreen.

(** [termios.tcgetattr(sys.stdin)], [tty.setcbreak(sys.stdin.fileno())] and
    [termios.tcsetattr(sys.stdin, termios.TCSADRAIN, settings)]; standard
    input is taken to be a terminal. *)
Definition tcgetattr : M tty_mode := λ w, (Ret (tty w), w).

Definition set_tty (mode : tty_mode) : M unit := λ w,
  (Ret (), {| trace := trace w; stdin := stdin w; tty := mode |}).

Definition setcbreak : M unit := set_tty Cbreak.

Definition tcsetattr (settings : tty_mode) : M unit := set_tty settings.

(** [select.select([sys.stdin], [], [], 1)]: is there something to read
    within one second?  A second without a key uses up one [NoKey]; a
    pending character or end of input is left for the read; the interrupt
    signal raises [KeyboardInterrupt]. *)
Definition select_stdin : M bool := λ w,
  let w1 := {| trace := trace w ++ [Select]; stdin := stdin w; tty := tty w |} in
  match stdin w with
  | [] => (Ret false, w1)
  | NoKey :: rest => (Ret false, {| trace := trace w1; stdin := rest; tty := tty w |})
  | Key _ :: _ | Eof :: _ => (Ret true, w1)
  | CtrlC :: rest => (Exc KeyboardInterrupt, {| trace := trace w1; stdin := rest; tty := tty w |})
  end.

(** [sys.stdin.read(1)]: the next character, the empty string at the end of
    the input.  Seconds without a key in front of it are waited out. *)
Fixpoint next_char (keys : list key_event) : result string * list key_event :=
  match keys with
  | [] => (Ret EmptyString, [])
  | NoKey :: rest => next_char rest
  | Key c :: rest => (Ret (String c EmptyString), rest)
  | Eof :: _ => (Ret EmptyString, keys)
  | CtrlC :: rest => (Exc KeyboardInterrupt, rest)
  end.

Definition stdin_read1 : M string := λ w,
  let '(r, keys) := next_char (stdin w) in
  (r, {| trace := trace w; stdin := keys; tty := tty w |}).

(** ** The collaborators *)

(** The boto3 client.  A call either returns a response or raises. *)
Record ListQueuesResponse : Type := {
  QueueUrls : option (list string)
}.

Record GetQueueAttributesResponse : Type := {
  Attributes : option (gmap string string)
}.

Record SqsClient : Type := {
  list_queues : result ListQueuesResponse;
  get_queue_attributes : string → list string → result GetQueueAttributesResponse
}.

(** Python's [re] module: [re.compile(pattern, flags)] returns a compiled
    pattern or raises [re.error] with a message, and [regex.search(s)]
    finds a match anywhere in [s] or not. *)
Inductive re_flags : Type := NOFLAG | IGNORECASE.

Record ReModule : Type := {
  regex : Type;
  re_compile : string → re_flags → regex + string;
  re_search : regex → string → bool
}.

(** ** A small regular-expression engine

    An implementation of the [re] interface for the patterns built from
    ordinary characters, [.], [^], [$] and a postfix [*] on a character or
    on [.], with Python's reading of them: [^] matches at the start of the
    string, [$] at its end or before a final newline, [.] any character but
    a newline, and [*] needs something to repeat and cannot be doubled.
    The other metacharacters are outside this fragment and are refused. *)

Module MiniRe.

Inductive atom : Type :=
| Chr (c : ascii)
| Any
| Bol
| Eol.

Inductive item : Type :=
| One (a : atom)
| Star (a : atom).

Record compiled : Type := {
  items : list item;
  flags : re_flags
}.

Definition is_other_meta (c : ascii) : bool :=
  existsb (Ascii.eqb c) [ascii_of_nat 92; "+"; "?"; "{"; "}"; "["; "]"; "|"; "("; ")"]%char.

(** [prev] is the item the next [*] would repeat, kept apart from the items
    already closed (in reverse order); [pos] is the index of the next
    character, which the messages of [re.error] end with. *)
Definition error_at (msg : string) (pos : Z) : string :=
  msg +:+ " at position " +:+ Py.str pos.

Fixpoint parse (s : string) (pos : Z) (closed : list item) (prev : option item)
  : list item + string :=
  let push := match prev with Some i => i :: closed | None => closed end in
  match s with
  | EmptyString => inl (List.rev push)
  | String c s' =>
      if Ascii.eqb c "*" then
        match prev with
        | Some (One (Chr x)) => parse s' (pos + 1) closed (Some (Star (Chr x)))
        | Some (One Any) => parse s' (pos + 1) closed (Some (Star Any))
        | Some (Star _) => inr (error_at "multiple repeat" pos)
        | _ => inr (error_at "nothing to repeat" pos)
        end
      else if Ascii.eqb c "." then parse s' (pos + 1) push (Some (One Any))
      else if Ascii.eqb c "^" then parse s' (pos + 1) push (Some (One Bol))
      else if Ascii.eqb c "$" then parse s' (pos + 1) push (Some (One Eol))
      else if is_other_meta c then inr "outside the fragment"
      else parse s' (pos + 1) push (Some (One (Chr c)))
  end.

Definition compile (pattern : string) (fl : re_flags) : compiled + string :=
  match parse pattern 0 [] None with
  | inl its => inl {| items := its; flags := fl |}
  | inr msg => inr msg
  end.

Definition char_matches (fl : re_flags) (p c : ascii) : bool :=
  match fl with
  | IGNORECASE => Ascii.eqb (Py.lower_char p) (Py.lower_char c)
  | NOFLAG => Ascii.eqb p c
  end.

Definition atom_matches (fl : re_flags) (a : atom) (c : ascii) : bool :=
  match a with
  | Chr p => char_matches fl p c
  | Any => negb (Ascii.eqb c (ascii_of_nat 10))
  | Bol | Eol => false
  end.

Definition at_end (s : string) : bool :=
  match s with
  | EmptyString => true
  | String c EmptyString => Ascii.eqb c (ascii_of_nat 10)
  | _ => false
  end.

(** Does the pattern match a prefix of [s]?  [at_start] tells whether [s]
    is the whole subject (position 0). *)
Fixpoint match_here (fl : re_flags) (re : list item) (at_start : bool) (s : string) : bool :=
  match re with
  | [] => true
  | One Bol :: re' => at_start && match_here fl re' at_start s
  | One Eol :: re' => at_end s && match_here fl re' at_start s
  | One a :: re' =>
      match s with
      | String c s' => atom_matches fl a c && match_here fl re' false s'
      | EmptyString => false
      end
  | Star a :: re' =>
      (fix star (at_start : bool) (s : string) {struct s} : bool :=
         match_here fl re' at_start s
         || match s with
            | String c s' => atom_matches fl a c && star false s'
            | EmptyString => false
            end) at_start s
  end.

Fixpoint search_from (fl : re_flags) (re : list item) (at_start : bool) (s : string) : bool :=
  match_here fl re at_start s
  || match s with
     | String _ s' => search_from fl re false s'
     | EmptyString => false
     end.

Definition search (r : compiled) (s : string) : bool :=
  search_from (flags r) (items r) true s.

Definition module : ReModule :=
  {| regex := compiled; re_compile := compile; re_search := search |}.

End MiniRe.

(** ** The script *)

(** [(message_count, in_flight_count, queue_url)], the tuple that
    [check_queue] returns for a queue that holds messages. *)
Definition snapshot : Type := Z * Z * string.

(** The tuples of [displayable_results], with the names the rendering loop
    gives to their components. *)
Record display_row : Type := {
  base_name : string;
  message_count : Z;
  in_flight_count : Z;
  total_count : Z;
  console_link : string
}.

(** [(-x[3], x[0])], the sort key of a row, and Python's [<] on such
    tuples: first components first, strings by code point. *)
Definition sort_key (x : display_row) : Z * string := (- total_count x, base_name x).

Definition key_lt (a b : Z * string) : bool :=
  (a.1 <? b.1) || ((a.1 =? b.1) && String.ltb a.2 b.2).

(** [sorted(xs, key=key)]: a stable sort that only asks [<] of the keys.
    An element goes in front of the first one whose key is not smaller
    than its own. *)
Fixpoint insert_by {A K : Type} (lt : K → K → bool) (key : A → K) (x : A) (sorted_tail : list A) : list A :=
  match sorted_tail with
  | [] => [x]
  | y :: ys => if lt (key y) (key x) then y :: insert_by lt key x ys else x :: sorted_tail
  end.

Fixpoint sorted {A K : Type} (lt : K → K → bool) (key : A → K) (xs : list A) : list A :=
  match xs with
  | [] => []
  | x :: xs' => insert_by lt key x (sorted lt key xs')
  end.

(** [max(xs)], which raises [ValueError] on an empty sequence. *)
Definition py_max (xs : list Z) : M Z :=
  match xs with
  | [] => raise (ValueError "max() arg is an empty sequence")
  | x :: xs' => mret (fold_left Z.max xs' x)
  end.

(** [range(n, 0, -1)]: [n, n-1, ..., 1]. *)
Fixpoint range_down (n : nat) : list Z :=
  match n with
  | O => []
  | S n' => Z.of_nat n :: range_down n'
  end.

(** ANSI escape codes for styles *)
Definition BOLD : string := String Py.ESC "[1m".
Definition GREEN : string := String Py.ESC "[92m".
Definition RESET : string := String Py.ESC "[0m".

(** Truth value of [args.pattern]: [None] and the empty string are false. *)
Definition pattern_given (pattern : option string) : option string :=
  match pattern with
  | Some EmptyString | None => None
  | Some p => Some p
  end.

(** The parsed command line. *)
Record Args : Type := {
  watch : option Z;
  workers : Z;
  include_in_flight : bool;
  pattern : option string
}.

(** How [main] can come back: by returning, or (in watch mode, which never
    returns by itself) still looping when the cycles that the model was
    asked to run are over. *)
Inductive main_end : Type := Returned | StillLooping.

(** The state of the process. *)
Inductive status : Type :=
| Exited (code : Z)
| Looping.

(** ** Stand-ins for the service and the pool

    A small account to run the script on: one queue with three visible
    messages and seven in flight, one empty queue, one queue that has been
    deleted since it was listed, and a dead-letter queue with one message. *)

Module Demo.

Definition orders : string := "https://sqs.eu-west-1.amazonaws.com/123456789012/orders".
Definition idle : string := "https://sqs.eu-west-1.amazonaws.com/123456789012/idle".
Definition gone : string := "https://sqs.eu-west-1.amazonaws.com/123456789012/gone".
Definition dlq_orders : string := "https://sqs.eu-west-1.amazonaws.com/123456789012/dlq-orders".

(** The service answers with the attributes that were asked for. *)
Definition answer (visible not_visible : string) (attribute_names : list string)
  : result GetQueueAttributesResponse :=
  Ret {| Attributes := Some (list_to_map
           (List.filter (λ kv : string * string, existsb (String.eqb kv.1) attribute_names)
              [("ApproximateNumberOfMessages", visible);
               ("ApproximateNumberOfMessagesNotVisible", not_visible)])) |}.

Definition sqs : SqsClient :=
  {| list_queues := Ret {| QueueUrls := Some [orders; idle; gone; dlq_orders] |};
     get_queue_attributes := λ queue_url attribute_names,
       if String.eqb queue_url orders then answer "3" "7" attribute_names
       else if String.eqb queue_url idle then answer "0" "0" attribute_names
       else if String.eqb queue_url dlq_orders then answer "1" "0" attribute_names
       else Exc QueueDoesNotExist |}.

(** A service that is down. *)
Definition sqs_down : SqsClient :=
  {| list_queues := Exc (ClientError "ServiceUnavailable");
     get_queue_attributes := λ _ _, Exc (ClientError "ServiceUnavailable") |}.

(** Two orders of completion: as submitted, and last submitted first. *)
Definition in_order {A : Type} (futures : list A) : list A := futures.
Definition last_first {A : Type} (futures : list A) : list A := List.rev futures.

Definition region : string := "eu-west-1".

Definition listed : list string := [orders; idle; gone; dlq_orders].

(** The pattern [^dlq] as the small engine compiles it. *)
Definition caret_dlq : MiniRe.compiled :=
  {| MiniRe.items :=
       [MiniRe.One MiniRe.Bol; MiniRe.One (MiniRe.Chr "d");
        MiniRe.One (MiniRe.Chr "l"); MiniRe.One (MiniRe.Chr "q")];
     MiniRe.flags := IGNORECASE |}.

(** A terminal in its usual mode with nothing typed, and one where the
    given keys arrive. *)
Definition quiet : World := {| trace := []; stdin := []; tty := Cooked |}.
Definition typing (keys : list key_event) : World :=
  {| trace := []; stdin := keys; tty := Cooked |}.

Definition once (pattern : option string) (include_in_flight : bool) : Args :=
  {| watch := None; workers := 4; include_in_flight := include_in_flight; pattern := pattern |}.

Definition watching (n : Z) : Args :=
  {| watch := Some n; workers := 4; include_in_flight := false; pattern := None |}.

End Demo.

(** ** Stand-ins that answer badly

    A service whose answers lack what [check_queue] reads: no attributes at
    all, attributes without the visible count, a visible count that is no
    number (one of them with a quote in it), an in-flight count that is no
    number, and no in-flight count. *)

Module Odd.

Definition bare : string := "https://sqs.eu-west-1.amazonaws.com/123456789012/bare".
Definition unlabelled : string := "https://sqs.eu-west-1.amazonaws.com/123456789012/unlabelled".
Definition wordy : string := "https://sqs.eu-west-1.amazonaws.com/123456789012/wordy".
Definition half_wordy : string := "https://sqs.eu-west-1.amazonaws.com/123456789012/half-wordy".
Definition visible_only : string := "https://sqs.eu-west-1.amazonaws.com/123456789012/visible-only".
Definition denied : string := "https://sqs.eu-west-1.amazonaws.com/123456789012/denied".
Definition quoted : string := "https://sqs.eu-west-1.amazonaws.com/123456789012/quoted".

Definition sqs : SqsClient :=
  {| list_queues :=
       Ret {| QueueUrls := Some [bare; unlabelled; wordy; half_wordy; visible_only; denied] |};
     get_queue_attributes := λ queue_url _,
       if String.eqb queue_url bare then Ret {| Attributes := None |}
       else if String.eqb queue_url unlabelled then Ret {| Attributes := Some ∅ |}
       else if String.eqb queue_url wordy then
         Ret {| Attributes := Some {[ "ApproximateNumberOfMessages" := "many" ]} |}
       else if String.eqb queue_url half_wordy then
         Ret {| Attributes := Some (<[ "ApproximateNumberOfMessages" := "2" ]>
                                      {[ "ApproximateNumberOfMessagesNotVisible" := "few" ]}) |}
       else if String.eqb queue_url visible_only then
         Ret {| Attributes := Some {[ "ApproximateNumberOfMessages" := "2" ]} |}
       else if String.eqb queue_url quoted then
         Ret {| Attributes := Some {[ "ApproximateNumberOfMessages" := "it's" ]} |}
       else Exc (ClientError "AccessDenied") |}.

End Odd.

(** More command lines for the stand-ins. *)

Module Cli.

(** [--workers 0] *)
Definition no_workers : Args :=
  {| watch := None; workers := 0; include_in_flight := false; pattern := None |}.

(** [--watch 5 --pattern o] *)
Definition watching_o : Args :=
  {| watch := Some 5; workers := 2; include_in_flight := true; pattern := Some "o" |}.

End Cli.

Section Script.

(** [sqs = boto3.client('sqs')], the [re] module, the name of the region of
    the session ([boto3.session.Session().region_name], as an f-string
    prints it) and the order in which [as_completed] hands out the futures
    of a pool: some rearrangement of the submitted ones. *)
Variable sqs : SqsClient.
Variable re : ReModule.
Variable current_region : string.
Variable as_completed : list (result (option snapshot)) → list (result (option snapshot)).
Hypothesis as_completed_perm : ∀ futures, as_completed futures ≡ₚ futures.

Definition call_list_queues : M ListQueuesResponse := λ w,
  (list_queues sqs, {| trace := trace w ++ [ListQueues]; stdin := stdin w; tty := tty w |}).

Definition call_get_queue_attributes (queue_url : string) (attribute_names : list string)
  : M GetQueueAttributesResponse := λ w,
  (get_queue_attributes sqs queue_url attribute_names,
   {| trace := trace w ++ [GetQueueAttributes queue_url attribute_names];
      stdin := stdin w; tty := tty w |}).

(** [d[key]] on a dictionary that may lack the key. *)
Definition subscript {V : Type} (d : option V) (key : string) : M V :=
  match d with
  | Some v => mret v
  | None => raise (KeyError key)
  end.

(** [int(s)]; the message of the [ValueError] shows [repr(s)], cut after
    200 characters. *)
Definition int_of_str (s : string) : M Z :=
  match Py.int s with
  | Some n => mret n
  | None =>
      raise (ValueError ("invalid literal for int() with base 10: "
                         +:+ Py.take_chars 200 (Py.repr s)))
  end.

(** The list [attribute_names] that [check_queue] builds. *)
Definition requested_attributes (include_in_flight : bool) : list string :=
  (["ApproximateNumberOfMessages"]
   ++ (if include_in_flight then ["ApproximateNumberOfMessagesNotVisible"] else []))%list.

Definition check_queue (queue_url : string) (include_in_flight : bool) : M (option snapshot) :=
  let attribute_names := requested_attributes include_in_flight in
  called ← attempt (call_get_queue_attributes queue_url attribute_names);
  match called with
  | Exc QueueDoesNotExist => mret None
  | Exc e => raise e
  | Ret response =>
      attributes ← subscript (Attributes response) "Attributes";
      visible ← subscript (attributes !! "ApproximateNumberOfMessages") "ApproximateNumberOfMessages";
      message_count ← int_of_str visible;
      in_flight_count ←
        (if include_in_flight then
           match attributes !! "ApproximateNumberOfMessagesNotVisible" with
           | Some not_visible => int_of_str not_visible
           | None => mret 0
           end
         else mret 0);
      let total_count := message_count + in_flight_count in
      if total_count =? 0 then mret None
      else mret (Some (message_count, in_flight_count, queue_url))
  end.

Definition clear_line : M unit :=
  print_end (Py.CR +:+ Py.replicate_char 60 " ") Py.CR.

Definition displayable (console_link : string) (result : snapshot) : display_row :=
  let '(message_count, in_flight_count, queue_url) := result in
  {| base_name := Py.last_segment queue_url;
     message_count := message_count;
     in_flight_count := in_flight_count;
     total_count := message_count + in_flight_count;
     console_link := console_link +:+ "#/queues/" +:+ Py.quote queue_url |}.

Definition row_text (include_in_flight : bool)
    (max_base_name_length max_message_count_length max_in_flight_length max_total_length : Z)
    (row : display_row) : string :=
  let display_name := Py.ljust (base_name row) max_base_name_length in
  let display_count := Py.rjust (Py.str (message_count row)) max_message_count_length in
  if include_in_flight then
    let display_in_flight := Py.rjust (Py.str (in_flight_count row)) max_in_flight_length in
    let display_total := Py.rjust (Py.str (total_count row)) max_total_length in
    BOLD +:+ display_name +:+ RESET +:+ ": " +:+ GREEN +:+ display_count +:+ " msgs" +:+ RESET
    +:+ ", " +:+ GREEN +:+ display_in_flight +:+ " in-flight" +:+ RESET
    +:+ ", " +:+ GREEN +:+ display_total +:+ " total" +:+ RESET
    +:+ Py.LF +:+ "    " +:+ console_link row
  else
    BOLD +:+ display_name +:+ RESET +:+ ": " +:+ GREEN +:+ display_count +:+ " msgs" +:+ RESET
    +:+ Py.LF +:+ "    " +:+ console_link row.

(** The first half of [display_results]: the rows, then the rows in the
    order of the output. *)
Definition console_home : string :=
  "https://console.aws.amazon.com/sqs/v2/home?region=" +:+ current_region.

Definition displayable_results (results : list snapshot) : list display_row :=
  displayable console_home <$> results.

Definition sorted_display_results (results : list snapshot) : list display_row :=
  sorted key_lt sort_key (displayable_results results).

Definition display_results (results : list snapshot) (include_in_flight : bool) : M unit :=
  let sorted_display_results := sorted_display_results results in
  _ ← clear_line;
  match results with
  | _ :: _ =>
      max_base_name_length ← py_max ((λ result, Py.len (base_name result)) <$> sorted_display_results);
      max_message_count ← py_max (message_count <$> sorted_display_results);
      let max_message_count_length := Py.len (Py.str max_message_count) in
      max_in_flight_length ←
        (if include_in_flight then
           max_in_flight ← py_max (in_flight_count <$> sorted_display_results);
           mret (Py.len (Py.str max_in_flight))
         else mret 0);
      max_total ← py_max (total_count <$> sorted_display_results);
      let max_total_length := Py.len (Py.str max_total) in
      for_each sorted_display_results (λ row,
        print (row_text include_in_flight max_base_name_length max_message_count_length
                 max_in_flight_length max_total_length row))
  | [] => print (BOLD +:+ "No messages found in any queue." +:+ RESET)
  end.

(** [executor.submit(check_queue, url, include_in_flight)]: the task runs in
    the pool and its future keeps how it ended.  The calls to the service
    are entered in the trace in the order of submission. *)
Definition submit (queue_url : string) (include_in_flight : bool) : M (result (option snapshot)) :=
  attempt (check_queue queue_url include_in_flight).

(** [future.result()]: the value of the task, or the exception it raised,
    raised again. *)
Definition future_result {A : Type} (future : result A) : M A := λ w, (future, w).

(** The loop over [as_completed(futures)], with the two variables it
    updates. *)
Fixpoint collect (total_queues processed_queues : Z)
    (completed : list (result (option snapshot))) (results : list snapshot) : M (list snapshot) :=
  match completed with
  | [] => mret results
  | future :: rest =>
      let processed_queues := processed_queues + 1 in
      _ ← print_end (Py.CR +:+ "Processed " +:+ BOLD +:+ Py.str processed_queues +:+ RESET
                     +:+ " out of " +:+ BOLD +:+ Py.str total_queues +:+ RESET +:+ " queues...")
                    EmptyString;
      result ← future_result future;
      match result with
      | Some found => collect total_queues processed_queues rest (results ++ [found])
      | None => collect total_queues processed_queues rest results
      end
  end.

Definition get_queue_infos (queue_urls : list string) (workers : Z) (include_in_flight : bool)
  : M (list snapshot) :=
  let total_queues := Z.of_nat (length queue_urls) in
  if workers <=? 0 then raise (ValueError "max_workers must be greater than 0")
  else
    futures ← mapM (λ url, submit url include_in_flight) queue_urls;
    collect total_queues 0 (as_completed futures) [].

Definition quit {A : Type} : M A :=
  _ ← print (BOLD +:+ GREEN +:+ "Program terminated by user." +:+ RESET);
  raise (SystemExit 0).

(** One turn of the loop of [countdown]: [Some true] is [return True]. *)
Definition tick (duration_len : Z) (i : Z) : M (option bool) :=
  _ ← print_end (Py.CR +:+ "Refresh in " +:+ Py.rjust (Py.str i) duration_len
                 +:+ " seconds (press 'R' to force refresh)") EmptyString;
  rlist ← select_stdin;
  if (rlist : bool) then
    read ← stdin_read1;
    let key := Py.lower read in
    _ ← clear_line;
    if String.eqb key "r" then mret (Some true)
    else if String.eqb key "q" then quit
    else mret None
  else mret None.

Definition countdown (duration : Z) : M bool :=
  original_settings ← tcgetattr;
  _ ← setcbreak;
  let duration_len := Py.len (Py.str duration) in
  returned ← try_finally
    (for_loop (range_down (Z.to_nat duration)) (tick duration_len))
    (tcsetattr original_settings);
  match returned with
  | Some b => mret b
  | None => mret false
  end.

Definition filter_queues_by_pattern (queue_urls : list string) (pattern : option string)
  : M (list string) :=
  match pattern_given pattern with
  | None => mret queue_urls
  | Some pattern =>
      match re_compile re pattern IGNORECASE with
      | inr e =>
          _ ← print ("Error: Invalid regex pattern '" +:+ pattern +:+ "': " +:+ e);
          raise (SystemExit 1)
      | inl regex =>
          mret (List.filter (λ url, re_search re regex (Py.last_segment url)) queue_urls)
      end
  end.

(** The body of [while True:], run [cycles] times. *)
Fixpoint watch_loop (cycles : nat) (queue_urls : list string) (args : Args) (n : Z) : M main_end :=
  match cycles with
  | O => mret StillLooping
  | S cycles' =>
      results ← get_queue_infos queue_urls (workers args) (include_in_flight args);
      _ ← os_system_clear;
      _ ← display_results results (include_in_flight args);
      _ ← countdown n;
      watch_loop cycles' queue_urls args n
  end.

Definition main_try (cycles : nat) (args : Args) : M main_end :=
  _ ← print_end "Reading list of queues..." EmptyString;
  response ← call_list_queues;
  let queue_urls := default [] (QueueUrls response) in
  queue_urls ←
    match pattern_given (pattern args) with
    | Some p =>
        let original_count := Z.of_nat (length queue_urls) in
        queue_urls ← filter_queues_by_pattern queue_urls (pattern args);
        let filtered_count := Z.of_nat (length queue_urls) in
        _ ← clear_line;
        _ ← print ("Filtered " +:+ Py.str original_count +:+ " queues to " +:+ Py.str filtered_count
                   +:+ " matching pattern '" +:+ p +:+ "'");
        mret queue_urls
    | None => mret queue_urls
    end;
  match watch args with
  | None =>
      results ← get_queue_infos queue_urls (workers args) (include_in_flight args);
      _ ← display_results results (include_in_flight args);
      match results with
      | _ :: _ => raise (SystemExit 1)
      | [] => mret Returned
      end
  | Some n => watch_loop cycles queue_urls args n
  end.

(** [main]: the body above under [except KeyboardInterrupt]. *)
Definition main (cycles : nat) (args : Args) : M main_end :=
  tried ← attempt (main_try cycles args);
  match tried with
  | Exc KeyboardInterrupt => _ ← clear_line; quit
  | Exc e => raise e
  | Ret r => mret r
  end.

(** The process: [main()] run as a script.  Returning ends it with status
    0, [sys.exit(code)] with [code], any other exception with a traceback
    and status 1. *)
Definition run_script (cycles : nat) (args : Args) (w : World) : status * World :=
  match main cycles args w with
  | (Ret Returned, w') => (Exited 0, w')
  | (Ret StillLooping, w') => (Looping, w')
  | (Exc (SystemExit code), w') => (Exited code, w')
  | (Exc _, w') => (Exited 1, w')
  end.

(** ** Notions used to state the properties *)

(** How a fetch ends; the world only gains the call ([check_queue_run]). *)
Definition check_queue_outcome (queue_url : string) (include_in_flight : bool)
  : result (option snapshot) :=
  (check_queue queue_url include_in_flight {| trace := []; stdin := []; tty := Cooked |}).1.

(** The counts that the service reports for a queue, read as integers: the
    visible messages and, when they are included, the messages in flight. *)
Definition fetched_counts (queue_url : string) (include_in_flight : bool) : option (Z * Z) :=
  match get_queue_attributes sqs queue_url (requested_attributes include_in_flight) with
  | Ret {| Attributes := Some attributes |} =>
      match attributes !! "ApproximateNumberOfMessages" ≫= Py.int with
      | Some visible =>
          if include_in_flight then
            match attributes !! "ApproximateNumberOfMessagesNotVisible" with
            | Some not_visible =>
                match Py.int not_visible with
                | Some in_flight => Some (visible, in_flight)
                | None => None
                end
            | None => Some (visible, 0)
            end
          else Some (visible, 0)
      | None => None
      end
  | _ => None
  end.

(** The service reports counts, that is, numbers that are not negative. *)
Definition counts_nonnegative (include_in_flight : bool) (queue_url : string) : bool :=
  match fetched_counts queue_url include_in_flight with
  | Some (visible, in_flight) => (0 <=? visible) && (0 <=? in_flight)
  | None => true
  end.

Definition snapshot_nonnegative (s : snapshot) : bool :=
  (0 <=? s.1.1) && (0 <=? s.1.2).

(** What the loop of [get_queue_infos] makes of the completed futures. *)
Fixpoint gather (completed : list (result (option snapshot))) (results : list snapshot)
  : result (list snapshot) :=
  match completed with
  | [] => Ret results
  | Ret (Some found) :: rest => gather rest (results ++ [found])
  | Ret None :: rest => gather rest results
  | Exc e :: _ => Exc e
  end.

(** The order of the rows: larger totals first, equal totals by name. *)
Definition row_order (a b : display_row) : Prop :=
  total_count b < total_count a
  ∨ (total_count a = total_count b ∧ String.le (base_name a) (base_name b)).

(** The width of a column as the specification words it: the largest
    length of the field over all rows. *)
Definition column_width (field : display_row → string) (rows : list display_row) : Z :=
  foldr Z.max 0 ((λ row, Py.len (field row)) <$> rows).

(** Justification as the specification words it: a text is brought to a
    width by spaces after it (left-justified) or before it
    (right-justified); a text that is already as long is left alone. *)
Fixpoint spaces (n : nat) : string :=
  match n with
  | O => EmptyString
  | S n' => String " " (spaces n')
  end.

Definition left_justified (text : string) (width : Z) : string :=
  text +:+ spaces (Z.to_nat width - String.length text).

Definition right_justified (text : string) (width : Z) : string :=
  spaces (Z.to_nat width - String.length text) +:+ text.

(** The fields of a row among [rows], each justified to the width of its
    column. *)
Definition name_field (rows : list display_row) (row : display_row) : string :=
  left_justified (base_name row) (column_width base_name rows).

Definition count_field (rows : list display_row) (row : display_row) : string :=
  right_justified (Py.str (message_count row))
    (column_width (λ r, Py.str (message_count r)) rows).

Definition in_flight_field (rows : list display_row) (row : display_row) : string :=
  right_justified (Py.str (in_flight_count row))
    (column_width (λ r, Py.str (in_flight_count r)) rows).

Definition total_field (rows : list display_row) (row : display_row) : string :=
  right_justified (Py.str (total_count row))
    (column_width (λ r, Py.str (total_count r)) rows).

(** The two lines of a row, made of their pieces: the name, the visible
    count, the counts in flight and in total when they are shown, and the
    link on a line of its own. *)
Definition laid_out_row (include_in_flight : bool) (rows : list display_row)
    (row : display_row) : string :=
  foldr String.append EmptyString
    ([BOLD; name_field rows row; RESET; ": ";
      GREEN; count_field rows row; " msgs"; RESET]
     ++ (if include_in_flight
         then [", "; GREEN; in_flight_field rows row; " in-flight"; RESET;
               ", "; GREEN; total_field rows row; " total"; RESET]
         else [])
     ++ [Py.LF; "    "; console_link row])%list.

(** [m] is the largest element of [xs]. *)
Definition is_max_of (xs : list Z) (m : Z) : Prop := m ∈ xs ∧ Forall (λ x, x ≤ m) xs.

(** The events that a run has added to the trace. *)
Definition added (before after : World) : list event :=
  drop (length (trace before)) (trace after).

(** The world after some more events. *)
Definition log (events : list event) (w : World) : World :=
  {| trace := trace w ++ events; stdin := stdin w; tty := tty w |}.

(** The calls that a poll of [queue_urls] makes. *)
Definition fetch_events (queue_urls : list string) (include_in_flight : bool) : list event :=
  (λ url, GetQueueAttributes url (requested_attributes include_in_flight)) <$> queue_urls.

Definition progress_text (processed_queues total_queues : Z) : string :=
  Py.CR +:+ "Processed " +:+ BOLD +:+ Py.str processed_queues +:+ RESET
  +:+ " out of " +:+ BOLD +:+ Py.str total_queues +:+ RESET +:+ " queues...".

(** The progress lines of a poll: one for each future that is looked at,
    up to the first one that raises. *)
Fixpoint progress_events (total_queues processed_queues : Z)
    (completed : list (result (option snapshot))) : list event :=
  match completed with
  | [] => []
  | future :: rest =>
      Write (progress_text (processed_queues + 1) total_queues)
      :: match future with
         | Ret _ => progress_events total_queues (processed_queues + 1) rest
         | Exc _ => []
         end
  end.

(** [max(xs)] of a sequence that is not empty. *)
Definition max_of (xs : list Z) : Z :=
  match xs with
  | [] => 0
  | x :: xs' => fold_left Z.max xs' x
  end.

(** A row as [display_results] prints it among [rows]. *)
Definition printed_row (include_in_flight : bool) (rows : list display_row)
    (row : display_row) : string :=
  row_text include_in_flight
    (max_of ((λ r, Py.len (base_name r)) <$> rows))
    (Py.len (Py.str (max_of (message_count <$> rows))))
    (if include_in_flight then Py.len (Py.str (max_of (in_flight_count <$> rows))) else 0)
    (Py.len (Py.str (max_of (total_count <$> rows))))
    row.

Definition clear_line_text : string := Py.CR +:+ Py.replicate_char 60 " " +:+ Py.CR.

Definition no_messages_text : string :=
  BOLD +:+ "No messages found in any queue." +:+ RESET +:+ Py.LF.

(** What [display_results] writes. *)
Definition display_events (results : list snapshot) (include_in_flight : bool) : list event :=
  Write clear_line_text
  :: match results with
     | [] => [Write no_messages_text]
     | _ :: _ =>
         (λ row, Write (printed_row include_in_flight (sorted_display_results results) row +:+ Py.LF))
         <$> sorted_display_results results
     end.

(** Three queues for the order of the rows: [b] with five visible
    messages, [a] with three visible and two in flight, [c] with two. *)
Definition three_results : list snapshot :=
  [(5, 0, "https://sqs.eu-west-1.amazonaws.com/123456789012/b");
   (3, 2, "https://sqs.eu-west-1.amazonaws.com/123456789012/a");
   (2, 0, "https://sqs.eu-west-1.amazonaws.com/123456789012/c")].

(** Three queues whose names and counts differ in length. *)
Definition uneven_results : list snapshot :=
  [(3, 7, "https://sqs.eu-west-1.amazonaws.com/123456789012/orders");
   (12, 100, "https://sqs.eu-west-1.amazonaws.com/123456789012/dlq-orders");
   (1, 0, "https://sqs.eu-west-1.amazonaws.com/123456789012/x")].

(** [s] starts with [prefix], letter case apart: what [^prefix] looks for
    under [re.IGNORECASE] when [prefix] is made of ordinary characters. *)
Fixpoint starts_with (prefix s : string) : bool :=
  match prefix, s with
  | EmptyString, _ => true
  | String a prefix', String b s' => Ascii.eqb a b && starts_with prefix' s'
  | String _ _, EmptyString => false
  end.

Definition starts_with_ci (prefix s : string) : bool :=
  starts_with (Py.lower prefix) (Py.lower s).

(** The pattern is absent, empty, or compiles. *)
Definition pattern_compiles (pattern : option string) : bool :=
  match pattern_given pattern with
  | None => true
  | Some p =>
      match re_compile re p IGNORECASE with
      | inl _ => true
      | inr _ => false
      end
  end.

(** The queues that are polled: the listed ones that the pattern keeps. *)
Definition selected (response : ListQueuesResponse) (pattern : option string) : list string :=
  let queue_urls := default [] (QueueUrls response) in
  match pattern_given pattern with
  | None => queue_urls
  | Some p =>
      match re_compile re p IGNORECASE with
      | inl regex => List.filter (λ url, re_search re regex (Py.last_segment url)) queue_urls
      | inr _ => []
      end
  end.

Definition invalid_pattern_text (p msg : string) : string :=
  ("Error: Invalid regex pattern '" +:+ p +:+ "': " +:+ msg) +:+ Py.LF.

(** What [main] does before it polls. *)
Definition prelude_events (response : ListQueuesResponse) (pattern : option string) : list event :=
  [Write "Reading list of queues..."; ListQueues]
  ++ match pattern_given pattern with
     | None => []
     | Some p =>
         [Write clear_line_text;
          Write (("Filtered " +:+ Py.str (Z.of_nat (length (default [] (QueueUrls response))))
                  +:+ " queues to " +:+ Py.str (Z.of_nat (length (selected response pattern)))
                  +:+ " matching pattern '" +:+ p +:+ "'") +:+ Py.LF)]
     end.

(** C3 as the specification words it: with an invalid pattern the process
    reports it and ends with a status other than zero, having made no call
    to the service. *)
Definition exits_before_any_network_call (cycles : nat) (args : Args) (w : World) : Prop :=
  ∀ p msg,
    pattern_given (pattern args) = Some p →
    re_compile re p IGNORECASE = inr msg →
    (∃ code, (run_script cycles args w).1 = Exited code ∧ code ≠ 0)
    ∧ Write (invalid_pattern_text p msg) ∈ added w (run_script cycles args w).2
    ∧ forallb (λ e, negb (is_network_call e)) (added w (run_script cycles args w).2) = true.

(** The terminal put in a mode. *)
Definition set_mode (mode : tty_mode) (w : World) : World :=
  {| trace := trace w; stdin := stdin w; tty := mode |}.

Definition refresh_text (duration_len i : Z) : string :=
  Py.CR +:+ "Refresh in " +:+ Py.rjust (Py.str i) duration_len
  +:+ " seconds (press 'R' to force refresh)".

Definition quit_text : string :=
  (BOLD +:+ GREEN +:+ "Program terminated by user." +:+ RESET) +:+ Py.LF.

(** The world after the turn of the loop that showed [i] seconds and read
    a key: the line, the wait, the line cleared, and the key gone. *)
Definition after_key (duration_len i : Z) (rest : list key_event) (w : World) : World :=
  {| trace := trace w ++ [Write (refresh_text duration_len i); Select; Write clear_line_text];
     stdin := rest;
     tty := tty w |}.

(** [countdown] with some of its seconds already over: the same body, the
    loop running over the seconds that are left. *)
Definition resume_countdown (duration_len : Z) (seconds_left : nat) : M bool :=
  original_settings ← tcgetattr;
  _ ← setcbreak;
  returned ← try_finally
    (for_loop (range_down seconds_left) (tick duration_len))
    (tcsetattr original_settings);
  match returned with
  | Some b => mret b
  | None => mret false
  end.

(** A run that adds events to the trace, none of them a wait on the
    keyboard, and leaves the keyboard and the terminal as they were. *)
Definition without_keyboard (w w' : World) : Prop :=
  ∃ events, w' = log events w
            ∧ forallb (λ e, negb (is_keyboard_wait e)) events = true.

(** ** More notions, for the properties beyond the specification *)

(** The snapshot that a future holds, if it holds one. *)
Definition snapshot_in (future : result (option snapshot)) : option snapshot :=
  match future with
  | Ret (Some found) => Some found
  | _ => None
  end.

(** The snapshots of the queues, in the order of the queues. *)
Definition snapshots_of (queue_urls : list string) (include_in_flight : bool) : list snapshot :=
  omap (λ url, snapshot_in (check_queue_outcome url include_in_flight)) queue_urls.

(** The [ValueError] that Python's [int] raises on a text it refuses: the
    text is shown as [repr] writes it, cut after 200 characters. *)
Definition invalid_literal (s : string) : exn :=
  ValueError ("invalid literal for int() with base 10: " +:+ Py.take_chars 200 (Py.repr s)).

(** A key event that leaves the countdown running: a second without a
    key, or a key that is neither r nor q in either case. *)
Definition uneventful (k : key_event) : bool :=
  match k with
  | NoKey => true
  | Key c =>
      negb (Ascii.eqb (Py.lower_char c) "r") && negb (Ascii.eqb (Py.lower_char c) "q")
  | Eof | CtrlC => false
  end.

(** What one turn of the loop of [countdown] adds to the trace for such an
    event, and what the turns for some seconds and events add. *)
Definition tick_events (duration_len i : Z) (k : key_event) : list event :=
  Write (refresh_text duration_len i) :: Select
  :: match k with
     | Key _ => [Write clear_line_text]
     | _ => []
     end.

Fixpoint ticks_events (duration_len : Z) (seconds : list Z) (keys : list key_event)
  : list event :=
  match seconds, keys with
  | i :: seconds', k :: keys' =>
      (tick_events duration_len i k ++ ticks_events duration_len seconds' keys')%list
  | _, _ => []
  end.

(** The world after the turns of the loop that took [keys] at the first
    of [seconds], with [rest] left on the keyboard. *)
Definition after_turns (duration_len : Z) (seconds : list Z) (keys rest : list key_event)
    (w : World) : World :=
  {| trace := trace w ++ ticks_events duration_len seconds keys;
     stdin := rest;
     tty := tty w |}.

(** The world after the turn of the loop that showed [i] seconds and met
    no key: the line, the wait, and what is left of the keyboard. *)
Definition after_wait (duration_len i : Z) (rest : list key_event) (w : World) : World :=
  {| trace := trace w ++ [Write (refresh_text duration_len i); Select];
     stdin := rest;
     tty := tty w |}.

(** The trace has grown by events that all pass [P], and the terminal is
    in the mode it was in. *)
Definition extends (P : event → bool) (w w' : World) : Prop :=
  tty w' = tty w
  ∧ ∃ events, trace w' = (trace w ++ events)%list ∧ forallb P events = true.

(** The calls to the service that a run may make once it has listed the
    queues: fetches of the given queues with the given attribute names. *)
Definition fetches_only (queue_urls : list string) (attribute_names : list string)
    (e : event) : bool :=
  match e with
  | ListQueues => false
  | GetQueueAttributes queue_url names =>
      bool_decide (queue_url ∈ queue_urls) && bool_decide (names = attribute_names)
  | _ => true
  end.

(** The events of a countdown: lines written and waits on the keyboard. *)
Definition is_countdown_event (e : event) : bool :=
  match e with
  | Write _ | Select => true
  | _ => false
  end.

Definition is_write (e : event) : bool :=
  match e with
  | Write _ => true
  | _ => false
  end.

(** Does the string contain a slash? *)
Fixpoint has_slash (s : string) : bool :=
  match s with
  | EmptyString => false
  | String c s' => Ascii.eqb c "/" || has_slash s'
  end.

(** * Properties *)

(** ** Decimal strings *)

Lemma digits_from_grows fuel n acc :
  (String.length acc ≤ String.length (Py.digits_from fuel n acc))%nat.
Proof.
  revert n acc. induction fuel as [|fuel IH]; intros n acc; simpl; [lia|].
  destruct (n <? 10); simpl; [lia|].
  etrans; [|apply IH]. simpl. lia.
Qed.

(** With enough fuel on both sides, the larger number has at least as many
    digits. *)
Lemma digits_from_length_mono fa : ∀ fb a b acca accb,
  0 ≤ a ≤ b → a < 2 ^ Z.of_nat fa → b < 2 ^ Z.of_nat fb → (0 < fb)%nat →
  (String.length (Py.digits_from fa a acca) + String.length accb
   ≤ String.length (Py.digits_from fb b accb) + String.length acca)%nat.
Proof.
  induction fa as [|fa IH]; intros fb a b acca accb Hab Ha Hb Hfb.
  - simpl. pose proof (digits_from_grows fb b accb). lia.
  - destruct fb as [|fb]; [lia|]. simpl.
    destruct (Z.ltb_spec a 10) as [Ha10|Ha10].
    + destruct (b <? 10); simpl; [lia|].
      pose proof (digits_from_grows fb (b / 10) (String (Py.digit_char (b `mod` 10)) accb)) as Hg.
      simpl in Hg. lia.
    + destruct (Z.ltb_spec b 10) as [Hb10|Hb10]; [lia|].
      assert (Hpa : 2 ^ Z.of_nat (S fa) = 2 * 2 ^ Z.of_nat fa)
        by (rewrite Nat2Z.inj_succ, Z.pow_succ_r; lia).
      assert (Hpb : 2 ^ Z.of_nat (S fb) = 2 * 2 ^ Z.of_nat fb)
        by (rewrite Nat2Z.inj_succ, Z.pow_succ_r; lia).
      assert (Hfb' : (0 < fb)%nat).
      { destruct fb; [simpl in Hb; lia | lia]. }
      specialize (IH fb (a / 10) (b / 10)
                    (String (Py.digit_char (a `mod` 10)) acca)
                    (String (Py.digit_char (b `mod` 10)) accb)).
      simpl in IH.
      assert (0 ≤ a / 10 ≤ b / 10).
      { split; [apply Z.div_pos; lia | apply Z.div_le_mono; lia]. }
      assert (a / 10 < 2 ^ Z.of_nat fa).
      { apply Z.div_lt_upper_bound; lia. }
      assert (b / 10 < 2 ^ Z.of_nat fb).
      { apply Z.div_lt_upper_bound; lia. }
      lia.
Qed.

Lemma digits_fuel_enough n : 0 ≤ n → n < 2 ^ Z.of_nat (S (Z.to_nat (Z.log2 n))).
Proof.
  intros Hn. rewrite Nat2Z.inj_succ, Z2Nat.id by apply Z.log2_nonneg.
  destruct (Z.eq_dec n 0) as [->|Hne]; [reflexivity|].
  apply Z.log2_spec. lia.
Qed.

Lemma digit_val_digit_char d : 0 ≤ d < 10 → Py.digit_val (Py.digit_char d) = Some d.
Proof.
  intros Hd.
  assert (Hcases : d = 0 ∨ d = 1 ∨ d = 2 ∨ d = 3 ∨ d = 4 ∨ d = 5 ∨ d = 6 ∨ d = 7
                   ∨ d = 8 ∨ d = 9) by lia.
  destruct Hcases as [->|[->|[->|[->|[->|[->|[->|[->|[->| ->]]]]]]]]]; reflexivity.
Qed.

(** The digits written for [n] in front of [rest] read back as [n]: with
    enough fuel no digit is lost. *)
Lemma digits_from_denote fuel : ∀ n rest,
  0 ≤ n < 2 ^ Z.of_nat (S fuel) →
  ∃ p, ∀ acc after_digit,
    Py.parse_digits (Py.digits_from (S fuel) n rest) acc after_digit
    = Py.parse_digits rest (acc * p + n) true.
Proof.
  induction fuel as [|fuel IH]; intros n rest Hn.
  - exists 10. intros acc after_digit.
    change (2 ^ Z.of_nat 1) with 2 in Hn. cbn [Py.digits_from].
    destruct (Z.ltb_spec n 10); [|lia].
    rewrite Z.mod_small by lia. cbn [Py.parse_digits].
    rewrite digit_val_digit_char by lia. f_equal. lia.
  - cbn [Py.digits_from].
    destruct (Z.ltb_spec n 10) as [Hlt|Hge].
    + exists 10. intros acc after_digit.
      rewrite Z.mod_small by lia. cbn [Py.parse_digits].
      rewrite digit_val_digit_char by lia. f_equal. lia.
    + assert (Hp : 2 ^ Z.of_nat (S (S fuel)) = 2 * 2 ^ Z.of_nat (S fuel))
        by (rewrite (Nat2Z.inj_succ (S fuel)), Z.pow_succ_r; lia).
      destruct (IH (n / 10) (String (Py.digit_char (n `mod` 10)) rest)) as [p Hdigits].
      { split; [apply Z.div_pos; lia | apply Z.div_lt_upper_bound; lia]. }
      exists (10 * p). intros acc after_digit.
      change (Py.digits_from (S fuel) (n `div` 10) (String (Py.digit_char (n `mod` 10)) rest))
        with (Py.digits_from (S fuel) (n / 10) (String (Py.digit_char (n `mod` 10)) rest)).
      rewrite Hdigits. cbn [Py.parse_digits].
      rewrite digit_val_digit_char by (apply Z.mod_pos_bound; lia).
      f_equal. pose proof (Z.div_mod n 10 ltac:(lia)). lia.
Qed.

Lemma digits_denote n : 0 ≤ n → Py.parse_digits (Py.digits n) 0 false = Some n.
Proof.
  intros Hn. unfold Py.digits.
  destruct (digits_from_denote (Z.to_nat (Z.log2 n)) n EmptyString) as [p Hdigits].
  { split; [done | by apply digits_fuel_enough]. }
  by rewrite Hdigits.
Qed.

Lemma str_length_mono a b : 0 ≤ a ≤ b → Py.len (Py.str a) ≤ Py.len (Py.str b).
Proof.
  intros Hab. unfold Py.len, Py.str.
  destruct (Z.ltb_spec a 0); [lia|]. destruct (Z.ltb_spec b 0); [lia|].
  unfold Py.digits.
  assert (Ha : 0 ≤ a) by lia. assert (Hb : 0 ≤ b) by lia.
  assert (Hf : (0 < S (Z.to_nat (Z.log2 b)))%nat) by apply Nat.lt_0_succ.
  pose proof (digits_from_length_mono _ _ a b EmptyString EmptyString Hab
                (digits_fuel_enough a Ha) (digits_fuel_enough b Hb) Hf) as H1.
  pose proof (eq_refl : String.length EmptyString = 0%nat). lia.
Qed.

(** ** Strings *)

Lemma app_empty_r s : s +:+ EmptyString = s.
Proof. induction s as [|c s IH]; [done|]. unfold String.app in *. simpl. by rewrite IH. Qed.

Lemma length_app s t : String.length (s +:+ t) = (String.length s + String.length t)%nat.
Proof. induction s as [|c s IH]; [done|]. unfold String.app in *. simpl. by rewrite IH. Qed.

Lemma length_replicate_char n c : String.length (Py.replicate_char n c) = n.
Proof. induction n as [|n IH]; simpl; [done|]. by rewrite IH. Qed.

(** ** The text after the last slash *)

Lemma rev_app_app s : ∀ acc, String.rev_app s acc = String.rev_app s EmptyString +:+ acc.
Proof.
  induction s as [|c s IH]; intros acc; [done|].
  cbn [String.rev_app]. rewrite (IH (String c acc)), (IH (String c EmptyString)).
  generalize (String.rev_app s EmptyString). intros r.
  induction r as [|d r IHr]; [done|]. unfold String.app in *. simpl. by rewrite IHr.
Qed.

Lemma rev_cons c s : String.rev (String c s) = String.rev s +:+ String c EmptyString.
Proof. unfold String.rev. cbn [String.rev_app]. apply rev_app_app. Qed.

Lemma has_slash_app s t : has_slash (s +:+ t) = has_slash s || has_slash t.
Proof.
  induction s as [|c s IH]; [done|]. unfold String.app in *. simpl.
  by rewrite IH, orb_assoc.
Qed.

Lemma has_slash_rev s : has_slash (String.rev s) = has_slash s.
Proof.
  induction s as [|c s IH]; [done|].
  rewrite rev_cons, has_slash_app, IH. simpl.
  rewrite orb_false_r. apply orb_comm.
Qed.

Lemma app_cons_shift s c t : (s +:+ String c EmptyString) +:+ t = s +:+ String c t.
Proof. induction s as [|d s IH]; [done|]. unfold String.app in *. simpl. by rewrite IH. Qed.

Lemma split_slash_not_nil s : ∀ cur, Py.split_slash s cur ≠ [].
Proof.
  induction s as [|c s IH]; intros cur; [done|]. simpl.
  destruct (Ascii.eqb c "/"); [done|apply IH].
Qed.

Lemma last_cons_not_nil {A : Type} (x d : A) l : l ≠ [] → List.last (x :: l) d = List.last l d.
Proof. by destruct l. Qed.

Lemma split_slash_plain s : ∀ cur,
  has_slash s = false → Py.split_slash s cur = [String.rev cur +:+ s].
Proof.
  induction s as [|c s IH]; intros cur Hs.
  - simpl. by rewrite app_empty_r.
  - simpl in *. apply orb_false_iff in Hs as [Hc Hs]. rewrite Hc.
    rewrite IH by done. by rewrite rev_cons, app_cons_shift.
Qed.

Lemma split_slash_segments s : ∀ cur,
  has_slash cur = false →
  Forall (λ segment, has_slash segment = false) (Py.split_slash s cur).
Proof.
  induction s as [|c s IH]; intros cur Hcur.
  - simpl. repeat constructor. by rewrite has_slash_rev.
  - simpl. destruct (Ascii.eqb c "/") eqn:Hc.
    + constructor; [by rewrite has_slash_rev | by apply IH].
    + apply IH. simpl. by rewrite Hc.
Qed.

Lemma last_after_slash prefix name : ∀ cur,
  List.last (Py.split_slash (prefix +:+ String "/" name) cur) EmptyString
  = List.last (Py.split_slash name EmptyString) EmptyString.
Proof.
  induction prefix as [|c prefix IH]; intros cur.
  - change (EmptyString +:+ String "/" name) with (String "/" name). simpl.
    apply last_cons_not_nil, split_slash_not_nil.
  - change (String c prefix +:+ String "/" name) with (String c (prefix +:+ String "/" name)).
    simpl. destruct (Ascii.eqb c "/").
    + rewrite last_cons_not_nil by apply split_slash_not_nil. apply IH.
    + apply IH.
Qed.

Lemma last_segment_after_slash prefix name :
  has_slash name = false → Py.last_segment (prefix +:+ String "/" name) = name.
Proof.
  intros Hname. unfold Py.last_segment, Py.split.
  rewrite last_after_slash, split_slash_plain by done. done.
Qed.

(** ** Maxima *)

Lemma is_max_of_unique xs m m' : is_max_of xs m → is_max_of xs m' → m = m'.
Proof.
  intros [Hin Hle] [Hin' Hle']. rewrite Forall_forall in Hle, Hle'.
  specialize (Hle _ Hin'). specialize (Hle' _ Hin). lia.
Qed.

Lemma fold_left_max_is_max xs : ∀ x, is_max_of (x :: xs) (fold_left Z.max xs x).
Proof.
  induction xs as [|y ys IH]; intros x; simpl.
  - split; [apply elem_of_cons; by left | repeat constructor; lia].
  - destruct (IH (Z.max x y)) as [Hin Hle]. split.
    + apply elem_of_cons in Hin as [Heq|Hin];
        [|do 2 (apply elem_of_cons; right); exact Hin].
      rewrite Heq. destruct (Z.max_spec x y) as [[_ ->]|[_ ->]];
        [apply elem_of_cons; right; apply elem_of_cons; by left | apply elem_of_cons; by left].
    + inversion Hle as [|? ? Hm Hys]; subst.
      repeat constructor; [lia | lia | exact Hys].
Qed.

Lemma foldr_max_is_max xs :
  xs ≠ [] → Forall (λ x, 0 ≤ x) xs → is_max_of xs (foldr Z.max 0 xs).
Proof.
  induction xs as [|x xs IH]; [done|]. intros _ Hpos.
  inversion Hpos as [|? ? Hx Hxs]; subst. simpl.
  destruct xs as [|y ys].
  - simpl. rewrite Z.max_l by lia.
    split; [apply elem_of_cons; by left | repeat constructor; lia].
  - destruct (IH ltac:(done) Hxs) as [Hin Hle]. split.
    + destruct (Z.max_spec x (foldr Z.max 0 (y :: ys))) as [[_ ->]|[_ ->]];
        [apply elem_of_cons; right; exact Hin | apply elem_of_cons; by left].
    + constructor; [lia|]. eapply Forall_impl; [exact Hle|]. simpl. intros; lia.
Qed.

(** ** Sorting *)

Section Sorted.

Context {A K : Type} (lt : K → K → bool) (key : A → K) (R : A → A → Prop).
Hypothesis not_lt_R : ∀ a b, lt (key b) (key a) = false → R a b.
Hypothesis lt_R : ∀ a b, lt (key a) (key b) = true → R a b.
Hypothesis R_trans : ∀ a b c, R a b → R b c → R a c.

Lemma insert_by_perm x l : insert_by lt key x l ≡ₚ x :: l.
Proof.
  induction l as [|y ys IH]; simpl; [done|].
  destruct (lt (key y) (key x)); [|done].
  rewrite IH. apply Permutation_swap.
Qed.

Lemma sorted_perm l : sorted lt key l ≡ₚ l.
Proof.
  induction l as [|x xs IH]; simpl; [done|].
  rewrite insert_by_perm. by rewrite IH.
Qed.

Lemma insert_by_sorted x l :
  StronglySorted R l → StronglySorted R (insert_by lt key x l).
Proof.
  induction 1 as [|y ys Hs IH Hall]; simpl.
  - repeat constructor.
  - destruct (lt (key y) (key x)) eqn:Hyx.
    + constructor; [exact IH|].
      rewrite insert_by_perm. constructor; [by apply lt_R | exact Hall].
    + constructor; [by constructor|].
      constructor; [by apply not_lt_R|].
      eapply Forall_impl; [exact Hall|].
      intros z Hz. eapply R_trans; [|exact Hz]. by apply not_lt_R.
Qed.

Lemma sorted_sorted l : StronglySorted R (sorted lt key l).
Proof.
  induction l as [|x xs IH]; simpl; [constructor|]. by apply insert_by_sorted.
Qed.

End Sorted.

Lemma string_ltb_false_le a b : String.ltb b a = false ↔ String.le a b.
Proof.
  unfold String.le, String.leb, String.ltb.
  rewrite (String.compare_antisym b a).
  destruct (String.compare a b); simpl; intuition congruence.
Qed.

Lemma string_ltb_le a b : String.ltb a b = true → String.le a b.
Proof.
  unfold String.le, String.leb, String.ltb.
  destruct (String.compare a b); simpl; intuition congruence.
Qed.

Lemma key_not_lt_row_order a b :
  key_lt (sort_key b) (sort_key a) = false → row_order a b.
Proof.
  unfold key_lt, sort_key, row_order. simpl. intros H.
  apply orb_false_iff in H as [H1 H2].
  apply Z.ltb_ge in H1.
  destruct (Z.eqb_spec (- total_count b) (- total_count a)) as [Heq|Hne].
  - right. split; [lia|]. simpl in H2. by apply string_ltb_false_le.
  - left. lia.
Qed.

Lemma key_lt_row_order a b :
  key_lt (sort_key a) (sort_key b) = true → row_order a b.
Proof.
  unfold key_lt, sort_key, row_order. simpl. intros H.
  apply orb_true_iff in H as [H|H].
  - apply Z.ltb_lt in H. left. lia.
  - apply andb_true_iff in H as [H1 H2]. apply Z.eqb_eq in H1.
    right. split; [lia|]. by apply string_ltb_le.
Qed.

Lemma row_order_trans a b c : row_order a b → row_order b c → row_order a c.
Proof.
  unfold row_order. intros [H1|[H1 H1']] [H2|[H2 H2']].
  - left. lia.
  - left. lia.
  - left. lia.
  - right. split; [lia|]. by etrans.
Qed.

(** ** Running the pieces *)

Lemma log_nil w : log [] w = w.
Proof. destruct w. unfold log. simpl. by rewrite app_nil_r. Qed.

Lemma log_log es1 es2 w : log es2 (log es1 w) = log (es1 ++ es2) w.
Proof. unfold log. simpl. by rewrite app_assoc. Qed.

Lemma emit_run e w : emit e w = (Ret (), log [e] w).
Proof. reflexivity. Qed.

Lemma print_end_run text end_ w : print_end text end_ w = (Ret (), log [Write (text +:+ end_)] w).
Proof. reflexivity. Qed.

Lemma print_run text w : print text w = (Ret (), log [Write (text +:+ Py.LF)] w).
Proof. reflexivity. Qed.

Lemma clear_line_run w : clear_line w = (Ret (), log [Write clear_line_text] w).
Proof. reflexivity. Qed.

Lemma bind_run {A B : Type} (m : M A) (f : A → M B) w :
  (m ≫= f) w = match m w with
               | (Ret a, w') => f a w'
               | (Exc e, w') => (Exc e, w')
               end.
Proof. reflexivity. Qed.

Lemma check_queue_run queue_url include_in_flight w :
  check_queue queue_url include_in_flight w
  = (check_queue_outcome queue_url include_in_flight,
     log [GetQueueAttributes queue_url (requested_attributes include_in_flight)] w).
Proof.
  unfold check_queue_outcome, check_queue.
  rewrite !bind_run. unfold attempt, call_get_queue_attributes. simpl.
  destruct (get_queue_attributes sqs queue_url (requested_attributes include_in_flight))
    as [response|e].
  - rewrite !bind_run. destruct (Attributes response) as [attributes|]; simpl; [|done].
    rewrite !bind_run.
    destruct (attributes !! "ApproximateNumberOfMessages") as [visible|]; simpl; [|done].
    rewrite !bind_run. unfold int_of_str.
    destruct (Py.int visible) as [message_count|]; simpl; [|done].
    rewrite !bind_run.
    destruct include_in_flight; simpl.
    + destruct (attributes !! "ApproximateNumberOfMessagesNotVisible") as [not_visible|]; simpl.
      * destruct (Py.int not_visible) as [in_flight|]; simpl; [|done].
        by destruct (message_count + in_flight =? 0).
      * by destruct (message_count + 0 =? 0).
    + by destruct (message_count + 0 =? 0).
  - by destruct e.
Qed.

Lemma outcome_of_counts queue_url include_in_flight visible in_flight :
  fetched_counts queue_url include_in_flight = Some (visible, in_flight) →
  check_queue_outcome queue_url include_in_flight
  = Ret (if visible + in_flight =? 0 then None
         else Some (visible, in_flight, queue_url)).
Proof.
  unfold fetched_counts, check_queue_outcome, check_queue.
  rewrite !bind_run. unfold attempt, call_get_queue_attributes. simpl.
  destruct (get_queue_attributes sqs queue_url (requested_attributes include_in_flight))
    as [[[attributes|]]|e]; [|done|done].
  rewrite !bind_run. simpl. rewrite !bind_run.
  destruct (attributes !! "ApproximateNumberOfMessages") as [v|]; simpl; [|done].
  rewrite !bind_run. unfold int_of_str.
  destruct (Py.int v) as [message_count|]; simpl; [|done].
  rewrite !bind_run.
  destruct include_in_flight; simpl.
  - destruct (attributes !! "ApproximateNumberOfMessagesNotVisible") as [nv|]; simpl.
    + destruct (Py.int nv) as [n|]; simpl; [|done].
      intros [= <- <-]. by destruct (message_count + n =? 0).
    + intros [= <- <-]. by destruct (message_count + 0 =? 0).
  - intros [= <- <-]. by destruct (message_count + 0 =? 0).
Qed.

Lemma outcome_found queue_url include_in_flight found :
  check_queue_outcome queue_url include_in_flight = Ret (Some found) →
  ∃ visible in_flight,
    found = (visible, in_flight, queue_url)
    ∧ fetched_counts queue_url include_in_flight = Some (visible, in_flight)
    ∧ visible + in_flight ≠ 0.
Proof.
  unfold fetched_counts, check_queue_outcome, check_queue.
  rewrite !bind_run. unfold attempt, call_get_queue_attributes. simpl.
  destruct (get_queue_attributes sqs queue_url (requested_attributes include_in_flight))
    as [[[attributes|]]|e]; [|done|by destruct e].
  rewrite !bind_run. simpl. rewrite !bind_run.
  destruct (attributes !! "ApproximateNumberOfMessages") as [v|]; simpl; [|done].
  rewrite !bind_run. unfold int_of_str.
  destruct (Py.int v) as [message_count|]; simpl; [|done].
  rewrite !bind_run.
  destruct include_in_flight; simpl.
  - destruct (attributes !! "ApproximateNumberOfMessagesNotVisible") as [nv|]; simpl.
    + destruct (Py.int nv) as [n|]; simpl; [|done].
      destruct (Z.eqb_spec (message_count + n) 0); [done|].
      intros [= <-]. by exists message_count, n.
    + destruct (Z.eqb_spec (message_count + 0) 0); [done|].
      intros [= <-]. by exists message_count, 0.
  - destruct (Z.eqb_spec (message_count + 0) 0); [done|].
    intros [= <-]. by exists message_count, 0.
Qed.

Lemma outcome_deleted queue_url include_in_flight :
  get_queue_attributes sqs queue_url (requested_attributes include_in_flight)
  = Exc QueueDoesNotExist →
  check_queue_outcome queue_url include_in_flight = Ret None.
Proof.
  intros H. unfold check_queue_outcome, check_queue.
  rewrite !bind_run. unfold attempt, call_get_queue_attributes. simpl. by rewrite H.
Qed.

Lemma submit_all_run queue_urls include_in_flight w :
  mapM (λ url, submit url include_in_flight) queue_urls w
  = (Ret ((λ url, check_queue_outcome url include_in_flight) <$> queue_urls),
     log (fetch_events queue_urls include_in_flight) w).
Proof.
  revert w. induction queue_urls as [|url urls IH]; intros w.
  - simpl. by rewrite log_nil.
  - simpl. rewrite bind_run. unfold submit at 1, attempt. rewrite check_queue_run.
    rewrite bind_run, IH. simpl. by rewrite log_log.
Qed.

Lemma collect_run total_queues : ∀ completed processed_queues results w,
  collect total_queues processed_queues completed results w
  = (gather completed results,
     log (progress_events total_queues processed_queues completed) w).
Proof.
  induction completed as [|future rest IH]; intros processed_queues results w.
  - simpl. by rewrite log_nil.
  - simpl. rewrite bind_run, print_end_run, bind_run, app_empty_r. unfold future_result.
    fold (progress_text (processed_queues + 1) total_queues).
    destruct future as [[found|]|e].
    + by rewrite IH, log_log.
    + by rewrite IH, log_log.
    + done.
Qed.

Lemma get_queue_infos_run queue_urls workers include_in_flight w :
  0 < workers →
  get_queue_infos queue_urls workers include_in_flight w
  = (gather (as_completed ((λ url, check_queue_outcome url include_in_flight) <$> queue_urls)) [],
     log (fetch_events queue_urls include_in_flight
          ++ progress_events (Z.of_nat (length queue_urls)) 0
               (as_completed ((λ url, check_queue_outcome url include_in_flight) <$> queue_urls)))
       w).
Proof.
  intros Hw. unfold get_queue_infos.
  destruct (Z.leb_spec workers 0); [lia|].
  rewrite bind_run, submit_all_run, collect_run. by rewrite log_log.
Qed.

Lemma get_queue_infos_no_workers queue_urls workers include_in_flight w :
  workers ≤ 0 →
  get_queue_infos queue_urls workers include_in_flight w
  = (Exc (ValueError "max_workers must be greater than 0"), w).
Proof.
  intros Hw. unfold get_queue_infos. by destruct (Z.leb_spec workers 0); [|lia].
Qed.

(** What [gather] returns: the snapshots of the futures, in their order,
    provided that none of them raised. *)
Lemma gather_returns completed : ∀ results found,
  gather completed results = Ret found →
  Forall (λ future, ∃ r, future = Ret r) completed
  ∧ ∀ s, s ∈ found ↔ s ∈ results ∨ Ret (Some s) ∈ completed.
Proof.
  induction completed as [|future rest IH]; intros results found; simpl.
  - intros [= <-]. split; [constructor|]. intros s. rewrite elem_of_nil. tauto.
  - destruct future as [[s0|]|e]; [| |done]; intros H; apply IH in H as [Hall Hin].
    + split; [constructor; eauto|]. intros s. rewrite Hin, elem_of_app, !elem_of_cons, elem_of_nil.
      split; [intros [[?|[?|[]]]|?]|intros [?|[[= ?]|?]]]; subst; auto.
    + split; [constructor; eauto|]. intros s. rewrite Hin, elem_of_cons.
      split; [intros [?|?]|intros [?|[[= ]|?]]]; auto.
Qed.

Lemma gather_raises completed : ∀ results e,
  gather completed results = Exc e → Exc e ∈ completed.
Proof.
  induction completed as [|future rest IH]; intros results e; simpl; [done|].
  destruct future as [[s0|]|e0].
  - intros H. apply elem_of_cons. right. eauto.
  - intros H. apply elem_of_cons. right. eauto.
  - intros [= ->]. apply elem_of_cons. by left.
Qed.

Lemma gather_total completed : ∀ results,
  Forall (λ future, ∃ r, future = Ret r) completed →
  ∃ found, gather completed results = Ret found.
Proof.
  induction completed as [|future rest IH]; intros results Hall; simpl; [eauto|].
  inversion Hall as [|? ? [r ->] Hrest]; subst. destruct r; eauto.
Qed.

Lemma for_each_print_run {A : Type} (g : A → string) (xs : list A) : ∀ w,
  for_each xs (λ x, print (g x)) w
  = (Ret (), log ((λ x, Write (g x +:+ Py.LF)) <$> xs) w).
Proof.
  induction xs as [|x xs IH]; intros w; simpl.
  - by rewrite log_nil.
  - by rewrite bind_run, print_run, IH, log_log.
Qed.

Lemma py_max_run xs w : xs ≠ [] → py_max xs w = (Ret (max_of xs), w).
Proof. by destruct xs. Qed.

Lemma insert_by_not_nil {A K : Type} (lt : K → K → bool) (key : A → K) x l :
  insert_by lt key x l ≠ [].
Proof. destruct l as [|y ys]; simpl; [done|]. by destruct (lt (key y) (key x)). Qed.

Lemma sorted_display_results_not_nil results :
  results ≠ [] → sorted_display_results results ≠ [].
Proof.
  destruct results as [|r rs]; [done|]. intros _.
  unfold sorted_display_results, displayable_results. simpl. apply insert_by_not_nil.
Qed.

Lemma fmap_not_nil {A B : Type} (f : A → B) (l : list A) : l ≠ [] → f <$> l ≠ [].
Proof. by destruct l. Qed.

(** [display_results] never raises, and writes [display_events]. *)
Lemma display_results_run results include_in_flight w :
  display_results results include_in_flight w
  = (Ret (), log (display_events results include_in_flight) w).
Proof.
  unfold display_results, display_events.
  rewrite bind_run, clear_line_run.
  destruct results as [|r rs].
  - by rewrite print_run, log_log.
  - pose proof (sorted_display_results_not_nil (r :: rs) ltac:(done)) as Hne.
    set (rows := sorted_display_results (r :: rs)) in *.
    rewrite bind_run, py_max_run by by apply fmap_not_nil.
    rewrite bind_run, py_max_run by by apply fmap_not_nil.
    rewrite bind_run.
    destruct include_in_flight.
    + rewrite bind_run, py_max_run by by apply fmap_not_nil.
      simpl. rewrite bind_run, py_max_run by by apply fmap_not_nil.
      by rewrite for_each_print_run, log_log.
    + simpl. rewrite bind_run, py_max_run by by apply fmap_not_nil.
      by rewrite for_each_print_run, log_log.
Qed.

(** ** The fetcher and the aggregator *)

Lemma completed_in_submitted queue_urls include_in_flight future :
  future ∈ as_completed ((λ url, check_queue_outcome url include_in_flight) <$> queue_urls) ↔
  ∃ url, url ∈ queue_urls ∧ future = check_queue_outcome url include_in_flight.
Proof.
  rewrite (as_completed_perm _), list_elem_of_fmap.
  split; intros (url & H1 & H2); exists url; by split.
Qed.

(** C1: every snapshot in the result of [get_queue_infos] comes from the
    fetch of one of the polled queues and has a total, the visible count
    plus the in-flight count, above zero, the counts that the service
    reports being counts (not negative); and a queue whose fetched total
    is zero has no snapshot in the result. *)
Theorem poll_result_totals_positive queue_urls workers include_in_flight w results w' :
  forallb (counts_nonnegative include_in_flight) queue_urls = true →
  get_queue_infos queue_urls workers include_in_flight w = (Ret results, w') →
  Forall (λ s, ∃ queue_url visible in_flight,
            s = (visible, in_flight, queue_url)
            ∧ queue_url ∈ queue_urls
            ∧ fetched_counts queue_url include_in_flight = Some (visible, in_flight)
            ∧ total_count (displayable console_home s) = visible + in_flight
            ∧ 0 < total_count (displayable console_home s)) results
  ∧ (∀ queue_url visible in_flight,
       fetched_counts queue_url include_in_flight = Some (visible, in_flight) →
       visible + in_flight = 0 →
       ∀ s, s ∈ results → s.2 ≠ queue_url).
Proof.
  intros Hcounts Hrun.
  destruct (Z.leb_spec workers 0) as [Hw|Hw].
  { by rewrite get_queue_infos_no_workers in Hrun. }
  rewrite get_queue_infos_run in Hrun by done.
  injection Hrun as Hgather _.
  apply gather_returns in Hgather as [_ Hin].
  assert (Hfrom : ∀ s, s ∈ results →
            ∃ url, url ∈ queue_urls
                   ∧ check_queue_outcome url include_in_flight = Ret (Some s)).
  { intros s Hs. apply Hin in Hs as [Hs|Hs]; [by apply elem_of_nil in Hs|].
    apply completed_in_submitted in Hs as (url & Hurl & Heq). eauto. }
  split.
  - apply Forall_forall. intros s Hs.
    destruct (Hfrom s Hs) as (url & Hurl & Hout).
    apply outcome_found in Hout as (visible & in_flight & -> & Hfetched & Hne).
    exists url, visible, in_flight. repeat split; try done.
    rewrite forallb_forall in Hcounts.
    apply list_elem_of_In, Hcounts in Hurl.
    unfold counts_nonnegative in Hurl. rewrite Hfetched in Hurl.
    apply andb_true_iff in Hurl as [H1 H2].
    apply Z.leb_le in H1, H2. simpl. lia.
  - intros url visible in_flight Hfetched Hzero s Hs Heq.
    destruct (Hfrom s Hs) as (url' & _ & Hout).
    apply outcome_found in Hout as (v & f & -> & Hfetched' & Hne).
    simpl in Heq. subst url'. rewrite Hfetched in Hfetched'.
    injection Hfetched' as -> ->. done.
Qed.

(** C5: a snapshot that [check_queue] returns carries the counts that the
    service reported, its total is their sum, and without
    [include_in_flight] the in-flight count is zero and the call asks for
    the visible count alone; a queue with 3 visible messages and 7 in
    flight has total 3 without [include_in_flight] and total 10 with it. *)
Theorem check_queue_total queue_url :
  (∀ include_in_flight w found w',
     check_queue queue_url include_in_flight w = (Ret (Some found), w') →
     ∃ visible in_flight,
       found = (visible, in_flight, queue_url)
       ∧ fetched_counts queue_url include_in_flight = Some (visible, in_flight)
       ∧ total_count (displayable console_home found) = visible + in_flight
       ∧ (include_in_flight = false → in_flight = 0))
  ∧ (∀ include_in_flight w,
       (check_queue queue_url include_in_flight w).2
       = log [GetQueueAttributes queue_url (requested_attributes include_in_flight)] w)
  ∧ requested_attributes false = ["ApproximateNumberOfMessages"]
  ∧ requested_attributes true
    = ["ApproximateNumberOfMessages"; "ApproximateNumberOfMessagesNotVisible"]
  ∧ (∀ asked_alone asked_both : gmap string string,
       get_queue_attributes sqs queue_url (requested_attributes false)
       = Ret {| Attributes := Some asked_alone |} →
       asked_alone !! "ApproximateNumberOfMessages" = Some "3" →
       get_queue_attributes sqs queue_url (requested_attributes true)
       = Ret {| Attributes := Some asked_both |} →
       asked_both !! "ApproximateNumberOfMessages" = Some "3" →
       asked_both !! "ApproximateNumberOfMessagesNotVisible" = Some "7" →
       check_queue_outcome queue_url false = Ret (Some (3, 0, queue_url))
       ∧ total_count (displayable console_home (3, 0, queue_url)) = 3
       ∧ check_queue_outcome queue_url true = Ret (Some (3, 7, queue_url))
       ∧ total_count (displayable console_home (3, 7, queue_url)) = 10).
Proof.
  split; [|split; [|split; [|split]]].
  - intros include_in_flight w found w' Hrun.
    rewrite check_queue_run in Hrun. injection Hrun as Hout _.
    apply outcome_found in Hout as (visible & in_flight & -> & Hfetched & Hne).
    exists visible, in_flight. repeat split; try done.
    intros ->. unfold fetched_counts in Hfetched.
    repeat case_match; simplify_eq; done.
  - intros include_in_flight w. by rewrite check_queue_run.
  - done.
  - done.
  - intros asked_alone asked_both Halone Hvisible Hboth Hvisible' Hnot_visible.
    rewrite (outcome_of_counts queue_url false 3 0), (outcome_of_counts queue_url true 3 7).
    + done.
    + unfold fetched_counts. by rewrite Hboth, Hvisible', Hnot_visible.
    + unfold fetched_counts. by rewrite Halone, Hvisible.
Qed.

(** C6: when the service answers that the queue does not exist,
    [check_queue] returns [None] and raises nothing; a poll over queues
    whose other fetches raise nothing returns its result, without a
    snapshot of that queue; and a poll that raises does so for another
    queue. *)
Theorem deleted_queue_is_skipped queue_url include_in_flight :
  get_queue_attributes sqs queue_url (requested_attributes include_in_flight)
  = Exc QueueDoesNotExist →
  (∀ w, check_queue queue_url include_in_flight w
        = (Ret None,
           log [GetQueueAttributes queue_url (requested_attributes include_in_flight)] w))
  ∧ (∀ queue_urls workers w,
       0 < workers →
       (∀ url, url ∈ queue_urls → url ≠ queue_url →
               ∃ r, check_queue_outcome url include_in_flight = Ret r) →
       ∃ results w',
         get_queue_infos queue_urls workers include_in_flight w = (Ret results, w')
         ∧ ∀ s, s ∈ results → s.2 ≠ queue_url)
  ∧ (∀ queue_urls workers w e w',
       0 < workers →
       get_queue_infos queue_urls workers include_in_flight w = (Exc e, w') →
       ∃ url, url ∈ queue_urls ∧ url ≠ queue_url
              ∧ check_queue_outcome url include_in_flight = Exc e).
Proof.
  intros Hgone. pose proof (outcome_deleted _ _ Hgone) as Hnone.
  split; [|split].
  - intros w. by rewrite check_queue_run, Hnone.
  - intros queue_urls workers w Hw Hothers.
    rewrite get_queue_infos_run by done.
    destruct (gather_total
                (as_completed ((λ url, check_queue_outcome url include_in_flight) <$> queue_urls))
                []) as [results Hresults].
    { apply Forall_forall. intros future Hfuture.
      apply completed_in_submitted in Hfuture as (url & Hurl & ->).
      destruct (decide (url = queue_url)) as [->|Hne]; [eauto|by apply Hothers]. }
    rewrite Hresults. eexists _, _. split; [done|].
    intros s Hs Heq.
    apply gather_returns in Hresults as [_ Hin].
    apply Hin in Hs as [Hs|Hs]; [by apply elem_of_nil in Hs|].
    apply completed_in_submitted in Hs as (url & Hurl & Hout).
    pose proof Hout as Hfound. symmetry in Hfound.
    apply outcome_found in Hfound as (v & f & -> & _ & _).
    simpl in Heq. subst url. by rewrite Hnone in Hout.
  - intros queue_urls workers w e w' Hw Hrun.
    rewrite get_queue_infos_run in Hrun by done. injection Hrun as Hgather _.
    apply gather_raises, completed_in_submitted in Hgather as (url & Hurl & Hout).
    exists url. repeat split; [done| |done].
    intros ->. by rewrite Hnone in Hout.
Qed.

(** ** The presenter *)

(** C2: the rows that [display_results] prints are the rows of the
    results, rearranged so that a row with a larger total comes first and
    rows with the same total come by ascending name, and they are printed
    in that order; for totals 5, 5, 2 with names b, a, c the order is
    a (5), b (5), c (2). *)
Theorem rows_sorted_by_total_then_name :
  (∀ results,
     sorted_display_results results ≡ₚ displayable_results results
     ∧ StronglySorted row_order (sorted_display_results results))
  ∧ (∀ results include_in_flight w,
       display_results results include_in_flight w
       = (Ret (), log (display_events results include_in_flight) w))
  ∧ (∀ r rs include_in_flight,
       display_events (r :: rs) include_in_flight
       = Write clear_line_text
         :: ((λ row, Write (printed_row include_in_flight
                              (sorted_display_results (r :: rs)) row +:+ Py.LF))
             <$> sorted_display_results (r :: rs)))
  ∧ (λ row, (base_name row, total_count row)) <$> sorted_display_results three_results
    = [("a", 5); ("b", 5); ("c", 2)].
Proof.
  split; [|split; [|split]].
  - intros results. split.
    + apply sorted_perm.
    + apply sorted_sorted.
      * apply key_not_lt_row_order.
      * apply key_lt_row_order.
      * apply row_order_trans.
  - apply display_results_run.
  - done.
  - reflexivity.
Qed.

Lemma column_width_bound (field : display_row → string) rows row :
  row ∈ rows → Py.len (field row) ≤ column_width field rows.
Proof.
  unfold column_width. induction rows as [|r rs IH]; intros Hin.
  - by apply elem_of_nil in Hin.
  - rewrite fmap_cons. cbn [foldr].
    apply elem_of_cons in Hin as [->|Hin]; [lia|]. specialize (IH Hin). lia.
Qed.

Lemma max_of_is_max xs : xs ≠ [] → is_max_of xs (max_of xs).
Proof. destruct xs as [|x xs]; [done|]. intros _. apply fold_left_max_is_max. Qed.

Lemma len_nonneg s : 0 ≤ Py.len s.
Proof. unfold Py.len. lia. Qed.

Lemma name_width_agrees rows :
  rows ≠ [] →
  max_of ((λ r, Py.len (base_name r)) <$> rows) = column_width base_name rows.
Proof.
  intros Hne. unfold column_width.
  eapply is_max_of_unique.
  - apply max_of_is_max. by apply fmap_not_nil.
  - apply foldr_max_is_max; [by apply fmap_not_nil|].
    apply Forall_fmap, Forall_forall. intros r _. apply len_nonneg.
Qed.

(** For counts, the length of the largest number is the largest length. *)
Lemma count_width_agrees (f : display_row → Z) rows :
  rows ≠ [] → Forall (λ r, 0 ≤ f r) rows →
  Py.len (Py.str (max_of (f <$> rows))) = column_width (λ r, Py.str (f r)) rows.
Proof.
  intros Hne Hpos. unfold column_width.
  destruct (max_of_is_max (f <$> rows) ltac:(by apply fmap_not_nil)) as [Hin Hle].
  eapply is_max_of_unique; [|apply foldr_max_is_max].
  - split.
    + apply list_elem_of_fmap in Hin as (r & Heq & Hr). rewrite Heq.
      apply list_elem_of_fmap. by exists r.
    + apply Forall_fmap, Forall_forall. intros r Hr. simpl.
      apply str_length_mono. split.
      * rewrite Forall_forall in Hpos. by apply Hpos.
      * rewrite Forall_forall in Hle. apply Hle, list_elem_of_fmap. by exists r.
  - by apply fmap_not_nil.
  - apply Forall_fmap, Forall_forall. intros r _. apply len_nonneg.
Qed.

Lemma len_ljust s width : Py.len s ≤ width → Py.len (Py.ljust s width) = width.
Proof.
  unfold Py.ljust, Py.len. intros H. rewrite length_app, length_replicate_char. lia.
Qed.

Lemma len_rjust s width : Py.len s ≤ width → Py.len (Py.rjust s width) = width.
Proof.
  unfold Py.rjust, Py.len. intros H. rewrite length_app, length_replicate_char. lia.
Qed.

Lemma rows_nonnegative results :
  forallb snapshot_nonnegative results = true →
  Forall (λ r, 0 ≤ message_count r ∧ 0 ≤ in_flight_count r ∧ 0 ≤ total_count r)
    (sorted_display_results results).
Proof.
  intros H. unfold sorted_display_results. rewrite sorted_perm.
  unfold displayable_results. apply Forall_fmap, Forall_forall.
  intros [[visible in_flight] url] Hin. simpl.
  rewrite forallb_forall in H. apply list_elem_of_In, H in Hin.
  unfold snapshot_nonnegative in Hin. simpl in Hin.
  apply andb_true_iff in Hin as [H1 H2]. apply Z.leb_le in H1, H2. lia.
Qed.

Lemma spaces_replicate n : spaces n = Py.replicate_char n " ".
Proof. induction n as [|n IH]; simpl; [done|]. by rewrite IH. Qed.

Lemma nat_width text width :
  (Z.to_nat width - String.length text)%nat = Z.to_nat (width - Py.len text).
Proof. unfold Py.len. lia. Qed.

Lemma left_justified_ljust text width : left_justified text width = Py.ljust text width.
Proof. unfold left_justified, Py.ljust. by rewrite spaces_replicate, nat_width. Qed.

Lemma right_justified_rjust text width : right_justified text width = Py.rjust text width.
Proof. unfold right_justified, Py.rjust. by rewrite spaces_replicate, nat_width. Qed.

Lemma laid_out_row_text include_in_flight rows row :
  laid_out_row include_in_flight rows row
  = row_text include_in_flight
      (column_width base_name rows)
      (column_width (λ r, Py.str (message_count r)) rows)
      (if include_in_flight then column_width (λ r, Py.str (in_flight_count r)) rows else 0)
      (column_width (λ r, Py.str (total_count r)) rows)
      row.
Proof.
  unfold laid_out_row, row_text, name_field, count_field, in_flight_field, total_field.
  rewrite !left_justified_ljust, !right_justified_rjust.
  destruct include_in_flight; cbn [foldr app]; by rewrite app_empty_r.
Qed.

(** C8: for results that are not empty, with counts that are not
    negative, [display_results] writes, after the line that clears, one
    text for each row in the order of the rows: the name followed by spaces
    and the visible count, and with the counts in flight also that count
    and the total, each preceded by spaces, up to the width of the column,
    which is the largest length of the field over all rows; then the link.
    Every field so justified is as long as its column is wide. *)
Theorem columns_aligned results include_in_flight w :
  results ≠ [] →
  forallb snapshot_nonnegative results = true →
  display_results results include_in_flight w
  = (Ret (),
     log (Write clear_line_text
          :: ((λ row, Write (laid_out_row include_in_flight
                               (sorted_display_results results) row +:+ Py.LF))
              <$> sorted_display_results results)) w)
  ∧ Forall (λ row,
      Py.len (name_field (sorted_display_results results) row)
      = column_width base_name (sorted_display_results results)
      ∧ Py.len (count_field (sorted_display_results results) row)
        = column_width (λ r, Py.str (message_count r)) (sorted_display_results results)
      ∧ Py.len (in_flight_field (sorted_display_results results) row)
        = column_width (λ r, Py.str (in_flight_count r)) (sorted_display_results results)
      ∧ Py.len (total_field (sorted_display_results results) row)
        = column_width (λ r, Py.str (total_count r)) (sorted_display_results results))
     (sorted_display_results results).
Proof.
  intros Hne Hpos.
  pose proof (sorted_display_results_not_nil results Hne) as Hrows.
  pose proof (rows_nonnegative results Hpos) as Hfields.
  split.
  - rewrite display_results_run. unfold display_events.
    destruct results as [|r rs]; [done|]. do 3 f_equal.
    apply list_fmap_ext. intros _ row _. do 2 f_equal.
    rewrite laid_out_row_text. unfold printed_row.
    rewrite name_width_agrees by done.
    rewrite !count_width_agrees; try done.
    + eapply Forall_impl; [exact Hfields|]. simpl. tauto.
    + eapply Forall_impl; [exact Hfields|]. simpl. tauto.
    + eapply Forall_impl; [exact Hfields|]. simpl. tauto.
  - apply Forall_forall. intros row Hrow.
    unfold name_field, count_field, in_flight_field, total_field.
    rewrite left_justified_ljust, !right_justified_rjust.
    repeat split.
    + apply len_ljust. by apply column_width_bound.
    + apply len_rjust. by apply (column_width_bound (λ r, Py.str (message_count r))).
    + apply len_rjust. by apply (column_width_bound (λ r, Py.str (in_flight_count r))).
    + apply len_rjust. by apply (column_width_bound (λ r, Py.str (total_count r))).
Qed.

(** ** The filter *)

Lemma filter_absent queue_urls pattern w :
  pattern_given pattern = None →
  filter_queues_by_pattern queue_urls pattern w = (Ret queue_urls, w).
Proof. intros H. unfold filter_queues_by_pattern. by rewrite H. Qed.

Lemma filter_valid queue_urls pattern p regex w :
  pattern_given pattern = Some p →
  re_compile re p IGNORECASE = inl regex →
  filter_queues_by_pattern queue_urls pattern w
  = (Ret (List.filter (λ url, re_search re regex (Py.last_segment url)) queue_urls), w).
Proof. intros H1 H2. unfold filter_queues_by_pattern. by rewrite H1, H2. Qed.

Lemma filter_invalid queue_urls pattern p msg w :
  pattern_given pattern = Some p →
  re_compile re p IGNORECASE = inr msg →
  filter_queues_by_pattern queue_urls pattern w
  = (Exc (SystemExit 1), log [Write (invalid_pattern_text p msg)] w).
Proof.
  intros H1 H2. unfold filter_queues_by_pattern. rewrite H1, H2.
  by rewrite bind_run, print_run.
Qed.

(** C4: without a pattern, or with the empty one, the filter returns its
    input; with a pattern that compiles (under [IGNORECASE]) it keeps, in
    their order, the queues in whose name, the text after the last slash
    of the URL and not the URL, [search] finds the pattern, and only
    those; an engine for which ["^dlq"] finds the strings that start with
    dlq in either case keeps dlq-orders and DLQ-users out of dlq-orders,
    orders-dlq, DLQ-users, as names and as the ends of URLs, whatever the
    URLs start with. *)
Theorem filter_keeps_matching_names :
  (∀ queue_urls w,
     filter_queues_by_pattern queue_urls None w = (Ret queue_urls, w)
     ∧ filter_queues_by_pattern queue_urls (Some EmptyString) w = (Ret queue_urls, w))
  ∧ (∀ queue_urls pattern p regex w,
       pattern_given pattern = Some p →
       re_compile re p IGNORECASE = inl regex →
       ∃ kept,
         filter_queues_by_pattern queue_urls pattern w = (Ret kept, w)
         ∧ kept = List.filter (λ url, re_search re regex (Py.last_segment url)) queue_urls
         ∧ (∀ url, url ∈ kept ↔
                   url ∈ queue_urls ∧ re_search re regex (Py.last_segment url) = true)
         ∧ (∀ prefix name,
              has_slash name = false →
              prefix +:+ String "/" name ∈ kept ↔
              prefix +:+ String "/" name ∈ queue_urls ∧ re_search re regex name = true))
  ∧ (∀ regex w,
       re_compile re "^dlq" IGNORECASE = inl regex →
       (∀ s, re_search re regex s = starts_with_ci "dlq" s) →
       filter_queues_by_pattern ["dlq-orders"; "orders-dlq"; "DLQ-users"] (Some "^dlq") w
       = (Ret ["dlq-orders"; "DLQ-users"], w))
  ∧ (∀ regex w prefix,
       re_compile re "^dlq" IGNORECASE = inl regex →
       (∀ s, re_search re regex s = starts_with_ci "dlq" s) →
       filter_queues_by_pattern
         [prefix +:+ String "/" "dlq-orders"; prefix +:+ String "/" "orders-dlq";
          prefix +:+ String "/" "DLQ-users"] (Some "^dlq") w
       = (Ret [prefix +:+ String "/" "dlq-orders"; prefix +:+ String "/" "DLQ-users"], w)).
Proof.
  split; [|split; [|split]].
  - intros queue_urls w. split; by apply filter_absent.
  - intros queue_urls pattern p regex w Hp Hc.
    eexists. split; [by apply (filter_valid _ _ p regex)|]. split; [done|].
    split.
    + intros url. rewrite !list_elem_of_In, filter_In. tauto.
    + intros prefix name Hname.
      rewrite !list_elem_of_In, filter_In, last_segment_after_slash by done. tauto.
  - intros regex w Hc Hsearch.
    rewrite (filter_valid _ _ "^dlq" regex) by done.
    simpl. by rewrite !Hsearch.
  - intros regex w prefix Hc Hsearch.
    rewrite (filter_valid _ _ "^dlq" regex) by done.
    cbn [List.filter]. rewrite !last_segment_after_slash by done.
    by rewrite !Hsearch.
Qed.

(** ** The process *)

Lemma call_list_queues_run w : call_list_queues w = (list_queues sqs, log [ListQueues] w).
Proof. reflexivity. Qed.

Lemma run_script_main cycles args w :
  run_script cycles args w
  = match main cycles args w with
    | (Ret Returned, w') => (Exited 0, w')
    | (Ret StillLooping, w') => (Looping, w')
    | (Exc (SystemExit code), w') => (Exited code, w')
    | (Exc _, w') => (Exited 1, w')
    end.
Proof. reflexivity. Qed.

Lemma main_run cycles args w :
  main cycles args w
  = match main_try cycles args w with
    | (Exc KeyboardInterrupt, w') => quit (log [Write clear_line_text] w')
    | other => other
    end.
Proof.
  unfold main. rewrite bind_run. unfold attempt.
  destruct (main_try cycles args w) as [[r|e] w']; [done|].
  by destruct e.
Qed.

(** C3, amended: with an invalid pattern and a listing that succeeds, the
    process lists the queues, reports the pattern and ends with status 1;
    the listing is the one call to the service and no queue is fetched. *)
Theorem invalid_pattern_exits_after_listing cycles args w response p msg :
  list_queues sqs = Ret response →
  pattern_given (pattern args) = Some p →
  re_compile re p IGNORECASE = inr msg →
  run_script cycles args w
  = (Exited 1,
     log [Write "Reading list of queues..."; ListQueues; Write (invalid_pattern_text p msg)] w)
  ∧ List.filter is_network_call (added w (run_script cycles args w).2) = [ListQueues]
  ∧ List.filter is_fetch (added w (run_script cycles args w).2) = [].
Proof.
  intros Hlist Hp Hc.
  assert (Hrun : run_script cycles args w
    = (Exited 1,
       log [Write "Reading list of queues..."; ListQueues; Write (invalid_pattern_text p msg)] w)).
  { rewrite run_script_main, main_run. unfold main_try.
    rewrite bind_run, print_end_run, bind_run, call_list_queues_run, Hlist.
    rewrite bind_run, Hp, bind_run.
    rewrite (filter_invalid _ _ p msg) by done.
    by rewrite !log_log. }
  rewrite Hrun. split; [done|].
  unfold added, log. simpl. rewrite drop_app_length. done.
Qed.

Lemma main_try_prelude cycles args w response :
  list_queues sqs = Ret response →
  pattern_compiles (pattern args) = true →
  main_try cycles args w
  = match watch args with
    | None =>
        (results ← get_queue_infos (selected response (pattern args)) (workers args)
                      (include_in_flight args);
         _ ← display_results results (include_in_flight args);
         match results with
         | _ :: _ => raise (SystemExit 1)
         | [] => mret Returned
         end) (log (prelude_events response (pattern args)) w)
    | Some n =>
        watch_loop cycles (selected response (pattern args)) args n
          (log (prelude_events response (pattern args)) w)
    end.
Proof.
  intros Hlist Hc. unfold main_try.
  rewrite bind_run, print_end_run, bind_run, call_list_queues_run, Hlist.
  rewrite bind_run. unfold pattern_compiles in Hc. unfold prelude_events, selected.
  destruct (pattern_given (pattern args)) as [p|] eqn:Hp.
  - destruct (re_compile re p IGNORECASE) as [regex|msg] eqn:Hre; [|done].
    rewrite bind_run, (filter_valid _ _ p regex) by done.
    rewrite bind_run, clear_line_run, bind_run, print_run.
    rewrite !log_log. by destruct (watch args).
  - rewrite !log_log. by destruct (watch args).
Qed.

(** C7: without [--watch], when the listing succeeds, the pattern (if any)
    compiles and the poll returns its results, the process renders them
    and then ends, with status 1 if there are results and status 0 if there
    are none. *)
Theorem exit_status_tells_messages cycles args w response results w' :
  watch args = None →
  list_queues sqs = Ret response →
  pattern_compiles (pattern args) = true →
  get_queue_infos (selected response (pattern args)) (workers args) (include_in_flight args)
    (log (prelude_events response (pattern args)) w)
  = (Ret results, w') →
  run_script cycles args w
  = (Exited (match results with [] => 0 | _ :: _ => 1 end),
     log (display_events results (include_in_flight args)) w').
Proof.
  intros Hwatch Hlist Hc Hpoll.
  rewrite run_script_main, main_run, (main_try_prelude _ _ _ response) by done.
  rewrite Hwatch, bind_run, Hpoll, bind_run, display_results_run.
  by destruct results.
Qed.

(** ** The countdown *)

Lemma countdown_resume duration :
  countdown duration = resume_countdown (Py.len (Py.str duration)) (Z.to_nat duration).
Proof. reflexivity. Qed.

Lemma resume_countdown_run duration_len seconds_left w :
  resume_countdown duration_len seconds_left w
  = match for_loop (range_down seconds_left) (tick duration_len) (set_mode Cbreak w) with
    | (Ret (Some b), w1) => (Ret b, set_mode (tty w) w1)
    | (Ret None, w1) => (Ret false, set_mode (tty w) w1)
    | (Exc e, w1) => (Exc e, set_mode (tty w) w1)
    end.
Proof.
  unfold resume_countdown. rewrite bind_run. unfold tcgetattr.
  rewrite bind_run. unfold setcbreak, set_tty. fold (set_mode Cbreak w).
  rewrite bind_run. unfold try_finally, tcsetattr, set_tty.
  destruct (for_loop (range_down seconds_left) (tick duration_len) (set_mode Cbreak w))
    as [[[b|]|e] w1]; reflexivity.
Qed.

Lemma set_mode_same w : set_mode (tty w) w = w.
Proof. by destruct w. Qed.

Lemma set_mode_set_mode m1 m2 w : set_mode m2 (set_mode m1 w) = set_mode m2 w.
Proof. reflexivity. Qed.

Lemma tick_key duration_len i c rest w :
  stdin w = Key c :: rest →
  tick duration_len i w
  = if Ascii.eqb (Py.lower_char c) "r" then (Ret (Some true), after_key duration_len i rest w)
    else if Ascii.eqb (Py.lower_char c) "q"
         then (Exc (SystemExit 0), log [Write quit_text] (after_key duration_len i rest w))
         else (Ret None, after_key duration_len i rest w).
Proof.
  destruct w as [events keys mode]. simpl. intros ->.
  unfold tick. rewrite bind_run, print_end_run, app_empty_r.
  fold (refresh_text duration_len i).
  rewrite bind_run. unfold select_stdin, log. simpl.
  rewrite bind_run. unfold stdin_read1. simpl.
  rewrite bind_run, clear_line_run. unfold log, after_key. simpl.
  rewrite <- !app_assoc. simpl.
  destruct (Ascii.eqb (Py.lower_char c) "r"); simpl; [done|].
  destruct (Ascii.eqb (Py.lower_char c) "q"); simpl; [|done].
  unfold quit. rewrite bind_run, print_run.
  unfold raise, log. simpl. by rewrite <- app_assoc.
Qed.

Lemma tick_no_key duration_len i rest w :
  stdin w = NoKey :: rest →
  tick duration_len i w = (Ret None, after_wait duration_len i rest w).
Proof.
  destruct w as [events keys mode]. simpl. intros ->.
  unfold tick. rewrite bind_run, print_end_run, app_empty_r.
  fold (refresh_text duration_len i).
  rewrite bind_run. unfold select_stdin, log, after_wait. simpl.
  by rewrite <- !app_assoc.
Qed.

Lemma tick_keyboard_empty duration_len i w :
  stdin w = [] →
  tick duration_len i w = (Ret None, after_wait duration_len i [] w).
Proof.
  destruct w as [events keys mode]. simpl. intros ->.
  unfold tick. rewrite bind_run, print_end_run, app_empty_r.
  fold (refresh_text duration_len i).
  rewrite bind_run. unfold select_stdin, log, after_wait. simpl.
  by rewrite <- !app_assoc.
Qed.

Lemma tick_interrupt duration_len i rest w :
  stdin w = CtrlC :: rest →
  tick duration_len i w = (Exc KeyboardInterrupt, after_wait duration_len i rest w).
Proof.
  destruct w as [events keys mode]. simpl. intros ->.
  unfold tick. rewrite bind_run, print_end_run, app_empty_r.
  fold (refresh_text duration_len i).
  rewrite bind_run. unfold select_stdin, log, after_wait. simpl.
  by rewrite <- !app_assoc.
Qed.

Lemma tick_end_of_input duration_len i rest w :
  stdin w = Eof :: rest →
  tick duration_len i w = (Ret None, after_key duration_len i (Eof :: rest) w).
Proof.
  destruct w as [events keys mode]. simpl. intros ->.
  unfold tick. rewrite bind_run, print_end_run, app_empty_r.
  fold (refresh_text duration_len i).
  rewrite bind_run. unfold select_stdin, log. simpl.
  rewrite bind_run. unfold stdin_read1. simpl.
  rewrite bind_run, clear_line_run. unfold log, after_key. simpl.
  by rewrite <- !app_assoc.
Qed.

Lemma tick_uneventful duration_len i k rest w :
  stdin w = k :: rest →
  uneventful k = true →
  tick duration_len i w
  = (Ret None,
     {| trace := trace w ++ tick_events duration_len i k; stdin := rest; tty := tty w |}).
Proof.
  intros Hkeys Hk. destruct k as [|c| |]; try done.
  - by rewrite (tick_no_key _ _ rest).
  - rewrite (tick_key _ _ c rest) by done. simpl in Hk.
    apply andb_true_iff in Hk as [Hr Hq].
    apply negb_true_iff in Hr, Hq. by rewrite Hr, Hq.
Qed.

Lemma ticks_uneventful duration_len keys : ∀ rest w,
  stdin w = (keys ++ rest)%list →
  forallb uneventful keys = true →
  for_loop (range_down (length keys)) (tick duration_len) w
  = (Ret None,
     {| trace := trace w ++ ticks_events duration_len (range_down (length keys)) keys;
        stdin := rest;
        tty := tty w |}).
Proof.
  induction keys as [|k keys IH]; intros rest w Hkeys Hall.
  - simpl in *. destruct w as [events ks mode]. simpl in *. subst.
    by rewrite app_nil_r.
  - cbn [length range_down for_loop ticks_events]. cbn [forallb] in Hall.
    apply andb_true_iff in Hall as [Hk Hall].
    rewrite bind_run, (tick_uneventful _ _ k (keys ++ rest)) by done.
    rewrite (IH rest) by done. simpl. by rewrite <- app_assoc.
Qed.

Lemma ticks_events_no_keys duration_len seconds : ticks_events duration_len seconds [] = [].
Proof. by destruct seconds. Qed.

(** Turns that leave the countdown running: the loop goes on with the
    seconds that are left. *)
Lemma ticks_quiet duration_len keys : ∀ seconds rest w,
  stdin w = (keys ++ rest)%list →
  forallb uneventful keys = true →
  (length keys ≤ length seconds)%nat →
  for_loop seconds (tick duration_len) w
  = for_loop (drop (length keys) seconds) (tick duration_len)
      (after_turns duration_len seconds keys rest w).
Proof.
  induction keys as [|k keys IH]; intros seconds rest w Hkeys Hall Hlen.
  - unfold after_turns. rewrite ticks_events_no_keys, app_nil_r.
    simpl in *. rewrite <- Hkeys. by destruct w.
  - destruct seconds as [|i seconds]; [simpl in Hlen; lia|].
    cbn [forallb] in Hall. apply andb_true_iff in Hall as [Hk Hall].
    cbn [length drop for_loop].
    rewrite bind_run, (tick_uneventful _ _ k (keys ++ rest)) by done.
    rewrite (IH seconds rest); [|done|done|simpl in Hlen; simpl; lia].
    unfold after_turns. cbn [ticks_events trace tty]. by rewrite <- app_assoc.
Qed.

Lemma length_range_down n : length (range_down n) = n.
Proof. induction n as [|n IH]; [done|]. simpl. by rewrite IH. Qed.

Lemma drop_range_down n : ∀ m, (m ≤ n)%nat → drop m (range_down n) = range_down (n - m).
Proof.
  induction n as [|n IH]; intros m Hm.
  - by replace m with 0%nat by lia.
  - destruct m as [|m]; [done|]. cbn [range_down drop].
    rewrite IH by lia. by replace (S n - S m)%nat with (n - m)%nat by lia.
Qed.

Lemma lower_char_r c : Ascii.eqb (Py.lower_char c) "r" = true ↔ c = "r"%char ∨ c = "R"%char.
Proof.
  destruct c as [[] [] [] [] [] [] [] []]; vm_compute;
    (split;
     [intros H; first [discriminate H | by left | by right]
     |intros [H|H]; first [reflexivity | discriminate H]]).
Qed.

Lemma lower_char_q c : Ascii.eqb (Py.lower_char c) "q" = true ↔ c = "q"%char ∨ c = "Q"%char.
Proof.
  destruct c as [[] [] [] [] [] [] [] []]; vm_compute;
    (split;
     [intros H; first [discriminate H | by left | by right]
     |intros [H|H]; first [reflexivity | discriminate H]]).
Qed.

(** C9: a key read during the countdown is lowered before it is compared.
    At whatever second of the countdown it is read, after seconds that
    brought no key or keys that are not recognised, r and R both end the
    countdown at once with [True], q and Q both quit (status 0, after the
    message), and any other character leaves the countdown running over the
    seconds that are left. *)
Theorem keypress_ignores_case duration quiet c rest w :
  (length quiet < Z.to_nat duration)%nat →
  forallb uneventful quiet = true →
  stdin w = (quiet ++ Key c :: rest)%list →
  (c = "r"%char ∨ c = "R"%char →
     countdown duration w
     = (Ret true,
        after_key (Py.len (Py.str duration)) (duration - Z.of_nat (length quiet)) rest
          (after_turns (Py.len (Py.str duration)) (range_down (Z.to_nat duration))
             quiet (Key c :: rest) w)))
  ∧ (c = "q"%char ∨ c = "Q"%char →
       countdown duration w
       = (Exc (SystemExit 0),
          log [Write quit_text]
            (after_key (Py.len (Py.str duration)) (duration - Z.of_nat (length quiet)) rest
               (after_turns (Py.len (Py.str duration)) (range_down (Z.to_nat duration))
                  quiet (Key c :: rest) w))))
  ∧ (c ≠ "r"%char → c ≠ "R"%char → c ≠ "q"%char → c ≠ "Q"%char →
       countdown duration w
       = resume_countdown (Py.len (Py.str duration))
           (Z.to_nat duration - S (length quiet))
           (after_key (Py.len (Py.str duration)) (duration - Z.of_nat (length quiet)) rest
              (after_turns (Py.len (Py.str duration)) (range_down (Z.to_nat duration))
                 quiet (Key c :: rest) w))).
Proof.
  intros Hlen Hquiet Hkeys.
  rewrite countdown_resume, resume_countdown_run.
  rewrite (ticks_quiet _ quiet _ (Key c :: rest));
    [|done|done|rewrite length_range_down; lia].
  rewrite drop_range_down by lia.
  destruct (Z.to_nat duration - length quiet)%nat as [|n] eqn:Hn; [lia|].
  assert (Hi : Z.of_nat (S n) = duration - Z.of_nat (length quiet)) by lia.
  replace (Z.to_nat duration - S (length quiet))%nat with n by lia.
  cbn [range_down for_loop]. rewrite Hi, bind_run.
  rewrite (tick_key _ _ c rest) by done.
  split; [|split].
  - intros Hr. apply lower_char_r in Hr. by rewrite Hr.
  - intros Hq.
    destruct (Ascii.eqb (Py.lower_char c) "r") eqn:Hr.
    { apply lower_char_r in Hr. destruct Hq as [->| ->], Hr as [?|?]; done. }
    apply lower_char_q in Hq. by rewrite Hq.
  - intros H1 H2 H3 H4.
    destruct (Ascii.eqb (Py.lower_char c) "r") eqn:Hr.
    { apply lower_char_r in Hr as [?|?]; done. }
    destruct (Ascii.eqb (Py.lower_char c) "q") eqn:Hq.
    { apply lower_char_q in Hq as [?|?]; done. }
    by rewrite resume_countdown_run.
Qed.

Lemma without_keyboard_refl w : without_keyboard w w.
Proof. exists []. by rewrite log_nil. Qed.

Lemma without_keyboard_log events w w' :
  forallb (λ e, negb (is_keyboard_wait e)) events = true →
  without_keyboard w w' → without_keyboard w (log events w').
Proof.
  intros Hev (es & -> & Hes). exists (es ++ events)%list.
  by rewrite log_log, forallb_app, Hes, Hev.
Qed.

Lemma without_keyboard_trans w1 w2 w3 :
  without_keyboard w1 w2 → without_keyboard w2 w3 → without_keyboard w1 w3.
Proof. intros H12 (es & -> & Hes). by apply without_keyboard_log. Qed.

Lemma fetch_events_no_wait queue_urls include_in_flight :
  forallb (λ e, negb (is_keyboard_wait e)) (fetch_events queue_urls include_in_flight) = true.
Proof. induction queue_urls as [|url urls IH]; [done|]. simpl. exact IH. Qed.

Lemma progress_events_no_wait total_queues completed : ∀ processed_queues,
  forallb (λ e, negb (is_keyboard_wait e))
    (progress_events total_queues processed_queues completed) = true.
Proof.
  induction completed as [|future rest IH]; intros processed_queues; [done|].
  simpl. destruct future; [apply IH|done].
Qed.

Lemma writes_no_wait {A : Type} (text : A → string) (xs : list A) :
  forallb (λ e, negb (is_keyboard_wait e)) ((λ x, Write (text x)) <$> xs) = true.
Proof. induction xs as [|x xs IH]; [done|]. exact IH. Qed.

Lemma display_events_no_wait results include_in_flight :
  forallb (λ e, negb (is_keyboard_wait e)) (display_events results include_in_flight) = true.
Proof.
  unfold display_events. destruct results as [|r rs]; [done|].
  cbn [forallb is_keyboard_wait negb andb]. apply writes_no_wait.
Qed.

Lemma get_queue_infos_without_keyboard queue_urls workers include_in_flight w :
  without_keyboard w (get_queue_infos queue_urls workers include_in_flight w).2.
Proof.
  destruct (Z.leb_spec workers 0) as [Hw|Hw].
  - rewrite get_queue_infos_no_workers by done. apply without_keyboard_refl.
  - rewrite get_queue_infos_run by done. simpl.
    apply without_keyboard_log; [|apply without_keyboard_refl].
    by rewrite forallb_app, fetch_events_no_wait, progress_events_no_wait.
Qed.

Lemma countdown_nothing duration w : duration ≤ 0 → countdown duration w = (Ret false, w).
Proof.
  intros H. rewrite countdown_resume, resume_countdown_run.
  replace (Z.to_nat duration) with 0%nat by lia. simpl.
  by rewrite set_mode_set_mode, set_mode_same.
Qed.

Lemma watch_loop_step cycles queue_urls args duration w :
  duration ≤ 0 →
  watch_loop (S cycles) queue_urls args duration w
  = (results ← get_queue_infos queue_urls (workers args) (include_in_flight args);
     _ ← os_system_clear;
     _ ← display_results results (include_in_flight args);
     watch_loop cycles queue_urls args duration) w.
Proof.
  intros H. cbn [watch_loop]. rewrite !bind_run.
  destruct (get_queue_infos queue_urls (workers args) (include_in_flight args) w)
    as [[results|e] w1]; [|done].
  rewrite !bind_run. unfold os_system_clear. rewrite emit_run, !bind_run.
  rewrite display_results_run. rewrite bind_run. by rewrite countdown_nothing.
Qed.

Lemma watch_loop_without_keyboard queue_urls args duration :
  duration ≤ 0 →
  ∀ cycles w, without_keyboard w (watch_loop cycles queue_urls args duration w).2.
Proof.
  intros H. induction cycles as [|cycles IH]; intros w.
  - apply without_keyboard_refl.
  - rewrite watch_loop_step by done. rewrite bind_run.
    pose proof (get_queue_infos_without_keyboard queue_urls (workers args)
                  (include_in_flight args) w) as Hpoll.
    destruct (get_queue_infos queue_urls (workers args) (include_in_flight args) w)
      as [[results|e] w1]; [|exact Hpoll].
    simpl in Hpoll. rewrite bind_run. unfold os_system_clear. rewrite emit_run, bind_run.
    rewrite display_results_run.
    eapply without_keyboard_trans; [|apply IH].
    apply without_keyboard_log; [apply display_events_no_wait|].
    by apply without_keyboard_log.
Qed.

(** C10: with a duration of zero or less, [countdown] shows nothing, waits
    for nothing, reads nothing and returns [False]; so a watch of zero
    seconds goes from one rendering straight to the next poll, and however
    many cycles run, the keyboard is never waited on and nothing typed is
    ever read. *)
Theorem countdown_without_seconds duration :
  duration ≤ 0 →
  (∀ w, countdown duration w = (Ret false, w))
  ∧ (∀ cycles queue_urls args w,
       watch_loop (S cycles) queue_urls args duration w
       = (results ← get_queue_infos queue_urls (workers args) (include_in_flight args);
          _ ← os_system_clear;
          _ ← display_results results (include_in_flight args);
          watch_loop cycles queue_urls args duration) w)
  ∧ (∀ cycles queue_urls args w,
       stdin (watch_loop cycles queue_urls args duration w).2 = stdin w
       ∧ tty (watch_loop cycles queue_urls args duration w).2 = tty w
       ∧ forallb (λ e, negb (is_keyboard_wait e))
           (added w (watch_loop cycles queue_urls args duration w).2) = true).
Proof.
  intros H. split; [|split].
  - intros w. by apply countdown_nothing.
  - intros. by apply watch_loop_step.
  - intros cycles queue_urls args w.
    destruct (watch_loop_without_keyboard queue_urls args duration H cycles w)
      as (events & -> & Hev).
    repeat split; try done.
    unfold added, log. simpl. by rewrite drop_app_length.
Qed.

(** * Properties beyond the specification *)

(** ** The fetcher when the service fails or answers badly *)

(** X1: a failure of the service call other than [QueueDoesNotExist] is
    raised again by [check_queue], as it is; [QueueDoesNotExist] alone is
    turned into [None]. Either way the one call has been made. *)
Theorem check_queue_service_failure queue_url include_in_flight e w :
  get_queue_attributes sqs queue_url (requested_attributes include_in_flight) = Exc e →
  check_queue queue_url include_in_flight w
  = (match e with
     | QueueDoesNotExist => Ret None
     | _ => Exc e
     end,
     log [GetQueueAttributes queue_url (requested_attributes include_in_flight)] w).
Proof.
  intros He. rewrite check_queue_run. f_equal.
  unfold check_queue_outcome, check_queue.
  rewrite !bind_run. unfold attempt, call_get_queue_attributes. simpl. rewrite He.
  by destruct e.
Qed.

(** X2: an answer that lacks what [check_queue] reads makes it raise: no
    [Attributes] or no visible count is a [KeyError] on that key; a visible
    count that [int] refuses is the [ValueError] of [int], whose message
    shows the text as [repr] writes it; and so is, with
    [include_in_flight], an in-flight count that [int] refuses.  The texts
    are ASCII and of at most 4300 characters, where the model of [int] is
    Python's. *)
Theorem check_queue_malformed_response queue_url :
  (∀ include_in_flight,
     get_queue_attributes sqs queue_url (requested_attributes include_in_flight)
     = Ret {| Attributes := None |} →
     check_queue_outcome queue_url include_in_flight = Exc (KeyError "Attributes"))
  ∧ (∀ include_in_flight (attributes : gmap string string),
       get_queue_attributes sqs queue_url (requested_attributes include_in_flight)
       = Ret {| Attributes := Some attributes |} →
       attributes !! "ApproximateNumberOfMessages" = None →
       check_queue_outcome queue_url include_in_flight
       = Exc (KeyError "ApproximateNumberOfMessages"))
  ∧ (∀ include_in_flight (attributes : gmap string string) visible,
       get_queue_attributes sqs queue_url (requested_attributes include_in_flight)
       = Ret {| Attributes := Some attributes |} →
       attributes !! "ApproximateNumberOfMessages" = Some visible →
       Py.is_ascii visible = true →
       (String.length visible ≤ 4300)%nat →
       Py.int visible = None →
       check_queue_outcome queue_url include_in_flight = Exc (invalid_literal visible))
  ∧ (∀ (attributes : gmap string string) visible message_count not_visible,
       get_queue_attributes sqs queue_url (requested_attributes true)
       = Ret {| Attributes := Some attributes |} →
       attributes !! "ApproximateNumberOfMessages" = Some visible →
       Py.is_ascii visible = true →
       (String.length visible ≤ 4300)%nat →
       Py.int visible = Some message_count →
       attributes !! "ApproximateNumberOfMessagesNotVisible" = Some not_visible →
       Py.is_ascii not_visible = true →
       (String.length not_visible ≤ 4300)%nat →
       Py.int not_visible = None →
       check_queue_outcome queue_url true = Exc (invalid_literal not_visible)).
Proof.
  unfold check_queue_outcome, check_queue, invalid_literal.
  split; [|split; [|split]].
  - intros include_in_flight H.
    rewrite !bind_run. unfold attempt, call_get_queue_attributes. simpl. by rewrite H.
  - intros include_in_flight attributes H Hvisible.
    rewrite !bind_run. unfold attempt, call_get_queue_attributes. simpl. rewrite H.
    rewrite !bind_run. simpl. rewrite !bind_run. by rewrite Hvisible.
  - intros include_in_flight attributes visible H Hvisible _ _ Hint.
    rewrite !bind_run. unfold attempt, call_get_queue_attributes. simpl. rewrite H.
    rewrite !bind_run. simpl. rewrite !bind_run, Hvisible. simpl.
    rewrite !bind_run. unfold int_of_str. by rewrite Hint.
  - intros attributes visible message_count not_visible H Hvisible _ _ Hint Hnot _ _ Hint'.
    rewrite !bind_run. unfold attempt, call_get_queue_attributes. simpl. rewrite H.
    rewrite !bind_run. simpl. rewrite !bind_run, Hvisible. simpl.
    rewrite !bind_run. unfold int_of_str. rewrite Hint. simpl.
    rewrite !bind_run, Hnot, Hint'. done.
Qed.

(** X3: with [include_in_flight], an answer without the in-flight count is
    no error: the count is taken to be zero, and the queue is reported by
    its visible messages alone. *)
Theorem missing_in_flight_counts_as_zero queue_url (attributes : gmap string string)
    visible message_count :
  get_queue_attributes sqs queue_url (requested_attributes true)
  = Ret {| Attributes := Some attributes |} →
  attributes !! "ApproximateNumberOfMessages" = Some visible →
  Py.int visible = Some message_count →
  attributes !! "ApproximateNumberOfMessagesNotVisible" = None →
  check_queue_outcome queue_url true
  = Ret (if message_count =? 0 then None else Some (message_count, 0, queue_url)).
Proof.
  intros H Hvisible Hint Hnot.
  rewrite (outcome_of_counts queue_url true message_count 0).
  - by rewrite Z.add_0_r.
  - unfold fetched_counts. rewrite H, Hvisible. simpl. by rewrite Hint, Hnot.
Qed.

(** ** The aggregator: what a poll returns, and when it fails *)

Lemma gather_exact completed : ∀ results found,
  gather completed results = Ret found →
  found = (results ++ omap snapshot_in completed)%list.
Proof.
  induction completed as [|future rest IH]; intros results found; simpl.
  - intros [= <-]. by rewrite app_nil_r.
  - destruct future as [[s|]|e]; [| |done]; intros H; apply IH in H as ->.
    + by rewrite <- app_assoc.
    + done.
Qed.

Lemma snapshots_of_outcomes queue_urls include_in_flight :
  omap snapshot_in ((λ url, check_queue_outcome url include_in_flight) <$> queue_urls)
  = snapshots_of queue_urls include_in_flight.
Proof.
  unfold snapshots_of. induction queue_urls as [|url urls IH]; [done|].
  rewrite fmap_cons. cbn [omap list_omap]. rewrite <- IH. done.
Qed.

Lemma all_returned queue_urls include_in_flight :
  (∀ url, url ∈ queue_urls → ∃ r, check_queue_outcome url include_in_flight = Ret r) →
  Forall (λ future, ∃ r, future = Ret r)
    (as_completed ((λ url, check_queue_outcome url include_in_flight) <$> queue_urls)).
Proof.
  intros Hall. apply Forall_forall. intros future Hfuture.
  apply completed_in_submitted in Hfuture as (url & Hurl & ->). by apply Hall.
Qed.

(** X4: when no fetch raises, a poll returns the snapshots of the queues
    in the order in which the fetches completed: each queue whose fetch
    found messages is there, once for each time it was listed, and nothing
    else is. *)
Theorem poll_returns_every_filled_queue queue_urls workers include_in_flight w :
  0 < workers →
  (∀ url, url ∈ queue_urls → ∃ r, check_queue_outcome url include_in_flight = Ret r) →
  ∃ results w',
    get_queue_infos queue_urls workers include_in_flight w = (Ret results, w')
    ∧ results
      = omap snapshot_in
          (as_completed ((λ url, check_queue_outcome url include_in_flight) <$> queue_urls))
    ∧ results ≡ₚ snapshots_of queue_urls include_in_flight
    ∧ ∀ url visible in_flight,
        url ∈ queue_urls →
        fetched_counts url include_in_flight = Some (visible, in_flight) →
        visible + in_flight ≠ 0 →
        (visible, in_flight, url) ∈ results.
Proof.
  intros Hw Hall. rewrite get_queue_infos_run by done.
  destruct (gather_total _ [] (all_returned _ _ Hall)) as [results Hresults].
  rewrite Hresults. exists results. eexists. split; [done|].
  apply gather_exact in Hresults. simpl in Hresults. subst results.
  assert (Hperm : omap snapshot_in
                    (as_completed
                       ((λ url, check_queue_outcome url include_in_flight) <$> queue_urls))
                  ≡ₚ snapshots_of queue_urls include_in_flight).
  { by rewrite (as_completed_perm _), snapshots_of_outcomes. }
  split; [done|]. split; [exact Hperm|].
  intros url visible in_flight Hurl Hcounts Hne.
  rewrite Hperm. unfold snapshots_of. apply list_elem_of_omap.
  exists url. split; [done|].
  rewrite (outcome_of_counts _ _ _ _ Hcounts).
  by destruct (Z.eqb_spec (visible + in_flight) 0).
Qed.

Lemma gather_first_failure completed : ∀ results,
  (∃ e, Exc e ∈ completed) → ∃ e, gather completed results = Exc e.
Proof.
  induction completed as [|future rest IH]; intros results [e He].
  - by apply elem_of_nil in He.
  - apply elem_of_cons in He as [<-|He]; [by exists e|].
    simpl. destruct future as [[s|]|e0]; eauto.
Qed.

Lemma fetches_of_poll queue_urls include_in_flight total_queues processed_queues completed :
  List.filter is_fetch
    (fetch_events queue_urls include_in_flight
     ++ progress_events total_queues processed_queues completed)
  = fetch_events queue_urls include_in_flight.
Proof.
  rewrite List.filter_app.
  assert (Hnone : List.filter is_fetch
                    (progress_events total_queues processed_queues completed) = []).
  { revert processed_queues.
    induction completed as [|future rest IH]; intros processed_queues; [done|].
    simpl. destruct future; [apply IH|done]. }
  rewrite Hnone, app_nil_r. clear Hnone.
  induction queue_urls as [|url urls IH]; [done|]. simpl. by rewrite IH.
Qed.

Lemma added_log events w : added w (log events w) = events.
Proof. unfold added, log. simpl. by rewrite drop_app_length. Qed.

(** X5: a fetch that raises, for any reason but a deleted queue, makes the
    whole poll raise: [get_queue_infos] returns no result at all, and
    raises what one of the failed fetches raised; every queue has been
    fetched all the same. *)
Theorem failed_fetch_aborts_poll queue_urls workers include_in_flight w url e :
  0 < workers →
  url ∈ queue_urls →
  check_queue_outcome url include_in_flight = Exc e →
  ∃ e' url' w',
    get_queue_infos queue_urls workers include_in_flight w = (Exc e', w')
    ∧ url' ∈ queue_urls
    ∧ check_queue_outcome url' include_in_flight = Exc e'
    ∧ List.filter is_fetch (added w w') ≡ₚ fetch_events queue_urls include_in_flight.
Proof.
  intros Hw Hurl Hout. rewrite get_queue_infos_run by done.
  destruct (gather_first_failure
              (as_completed ((λ url, check_queue_outcome url include_in_flight) <$> queue_urls))
              []) as [e' He'].
  { exists e. apply completed_in_submitted. eauto. }
  rewrite He'. pose proof He' as Hin.
  apply gather_raises, completed_in_submitted in Hin as (url' & Hurl' & Hout').
  exists e', url'. eexists. split; [done|]. split; [done|]. split; [done|].
  by rewrite added_log, fetches_of_poll.
Qed.

(** X6: with no worker ([--workers] zero or less) and without [--watch],
    the process lists the queues, applies the pattern, and then ends with
    the traceback of a [ValueError] (status 1): no queue is fetched and
    nothing is rendered. *)
Theorem no_workers_no_poll cycles args w response :
  watch args = None →
  list_queues sqs = Ret response →
  pattern_compiles (pattern args) = true →
  workers args ≤ 0 →
  run_script cycles args w
  = (Exited 1, log (prelude_events response (pattern args)) w).
Proof.
  intros Hwatch Hlist Hc Hw.
  rewrite run_script_main, main_run, (main_try_prelude _ _ _ response) by done.
  by rewrite Hwatch, bind_run, get_queue_infos_no_workers.
Qed.

Lemma progress_events_all_returned total_queues completed : ∀ processed_queues,
  Forall (λ future, ∃ r, future = Ret r) completed →
  progress_events total_queues processed_queues completed
  = (λ k, Write (progress_text k total_queues))
    <$> seqZ (processed_queues + 1) (Z.of_nat (length completed)).
Proof.
  induction completed as [|future rest IH]; intros processed_queues Hall; [done|].
  inversion Hall as [|? ? [r ->] Hrest]; subst.
  cbn [progress_events length]. rewrite seqZ_cons by lia. rewrite fmap_cons.
  f_equal. rewrite IH by done. do 2 f_equal; lia.
Qed.

Lemma writes_of_poll queue_urls include_in_flight (lines : list Z) (text : Z → string) :
  List.filter is_write
    (fetch_events queue_urls include_in_flight ++ ((λ k, Write (text k)) <$> lines))
  = (λ k, Write (text k)) <$> lines.
Proof.
  rewrite List.filter_app.
  assert (Hnone : List.filter is_write (fetch_events queue_urls include_in_flight) = []).
  { induction queue_urls as [|url urls IH]; [done|]. exact IH. }
  rewrite Hnone. rewrite app_nil_l.
  induction lines as [|k lines IH]; [done|].
  rewrite fmap_cons. cbn [List.filter is_write]. by rewrite IH.
Qed.

(** X7: the lines that a returning poll has written are the progress
    lines, one for each queue, counting from 1 to the number of queues
    whatever the order of completion. *)
Theorem progress_counts_every_queue queue_urls workers include_in_flight w results w' :
  get_queue_infos queue_urls workers include_in_flight w = (Ret results, w') →
  List.filter is_write (added w w')
  = (λ k, Write (progress_text k (Z.of_nat (length queue_urls))))
    <$> seqZ 1 (Z.of_nat (length queue_urls)).
Proof.
  intros Hrun.
  destruct (Z.leb_spec workers 0) as [Hw|Hw].
  { by rewrite get_queue_infos_no_workers in Hrun. }
  rewrite get_queue_infos_run in Hrun by done.
  injection Hrun as Hgather <-. rewrite added_log.
  apply gather_returns in Hgather as [Hall _].
  rewrite progress_events_all_returned by done.
  rewrite (as_completed_perm _), length_fmap.
  apply (writes_of_poll _ _ _ (λ k, progress_text k (Z.of_nat (length queue_urls)))).
Qed.

(** ** The presenter does not depend on the order of completion *)

(** Two sorted arrangements of the same elements are the same list, when
    no two different elements are each in order before the other. *)
Lemma strongly_sorted_unique {A : Type} (R : A → A → Prop) : ∀ l1 l2,
  (∀ a b, a ∈ l1 → b ∈ l1 → R a b → R b a → a = b) →
  StronglySorted R l1 → StronglySorted R l2 → l1 ≡ₚ l2 → l1 = l2.
Proof.
  induction l1 as [|a l1 IH]; intros l2 Hanti Hs1 Hs2 Hperm.
  - by apply Permutation_nil_l in Hperm.
  - destruct l2 as [|b l2]; [by apply Permutation_nil_r in Hperm|].
    apply StronglySorted_inv in Hs1 as [Hs1 Ha]. apply StronglySorted_inv in Hs2 as [Hs2 Hb].
    rewrite Forall_forall in Ha, Hb.
    assert (Heq : a = b).
    { assert (Hab : a ∈ b :: l2) by (rewrite <- Hperm; apply elem_of_cons; by left).
      assert (Hba : b ∈ a :: l1) by (rewrite Hperm; apply elem_of_cons; by left).
      apply elem_of_cons in Hab as [Hab|Hab]; [done|].
      apply elem_of_cons in Hba as [Hba|Hba]; [done|].
      apply Hanti.
      - apply elem_of_cons. by left.
      - apply elem_of_cons. by right.
      - by apply Ha.
      - by apply Hb. }
    subst b. f_equal. apply IH; try done.
    + intros x y Hx Hy. apply Hanti; apply elem_of_cons; by right.
    + by apply Permutation.Permutation_cons_inv in Hperm.
Qed.

Lemma display_rows_sorted results :
  StronglySorted row_order (sorted_display_results results).
Proof.
  apply sorted_sorted.
  - apply key_not_lt_row_order.
  - apply key_lt_row_order.
  - apply row_order_trans.
Qed.

Lemma row_order_same_name a b : row_order a b → row_order b a → base_name a = base_name b.
Proof.
  unfold row_order. intros [H1|[H1 H1']] [H2|[H2 H2']]; try lia.
  by apply (anti_symm String.le).
Qed.

Lemma no_dup_fmap_inj {A B : Type} (f : A → B) (l : list A) a b :
  NoDup (f <$> l) → a ∈ l → b ∈ l → f a = f b → a = b.
Proof.
  induction l as [|x l IH]; intros Hnd Ha Hb Heq.
  - by apply elem_of_nil in Ha.
  - rewrite fmap_cons in Hnd. apply NoDup_cons in Hnd as [Hx Hnd].
    apply elem_of_cons in Ha as [->|Ha]; apply elem_of_cons in Hb as [->|Hb].
    + done.
    + exfalso. apply Hx. rewrite Heq. by apply list_elem_of_fmap_2.
    + exfalso. apply Hx. rewrite <- Heq. by apply list_elem_of_fmap_2.
    + by apply IH.
Qed.

Lemma base_names_of_rows results :
  base_name <$> displayable_results results = (λ s : snapshot, Py.last_segment s.2) <$> results.
Proof.
  unfold displayable_results. rewrite <- list_fmap_compose.
  apply list_fmap_ext. by intros _ [[visible in_flight] url] _.
Qed.

(** Results that differ in their order alone are rendered alike, when no
    two of them have the same display name. *)
Lemma rendering_ignores_order results1 results2 include_in_flight w :
  results1 ≡ₚ results2 →
  NoDup ((λ s : snapshot, Py.last_segment s.2) <$> results1) →
  sorted_display_results results1 = sorted_display_results results2
  ∧ display_results results1 include_in_flight w
    = display_results results2 include_in_flight w.
Proof.
  intros Hperm Hnames.
  assert (Hrows : sorted_display_results results1 = sorted_display_results results2).
  { apply (strongly_sorted_unique row_order).
    - intros a b Ha Hb Hab Hba.
      apply (no_dup_fmap_inj base_name (sorted_display_results results1)); try done.
      + unfold sorted_display_results. rewrite sorted_perm. by rewrite base_names_of_rows.
      + by apply row_order_same_name.
    - apply display_rows_sorted.
    - apply display_rows_sorted.
    - unfold sorted_display_results, displayable_results.
      by rewrite !sorted_perm, Hperm. }
  split; [exact Hrows|].
  rewrite !display_results_run. unfold display_events. rewrite Hrows.
  destruct results1 as [|r1 rs1], results2 as [|r2 rs2]; try done.
  - by apply Permutation_nil_l in Hperm.
  - by apply Permutation_nil_r in Hperm.
Qed.

Lemma poll_result_perm queue_urls workers include_in_flight w results w' :
  get_queue_infos queue_urls workers include_in_flight w = (Ret results, w') →
  results ≡ₚ snapshots_of queue_urls include_in_flight.
Proof.
  intros Hrun.
  destruct (Z.leb_spec workers 0) as [Hw|Hw].
  { by rewrite get_queue_infos_no_workers in Hrun. }
  rewrite get_queue_infos_run in Hrun by done. injection Hrun as Hgather _.
  apply gather_exact in Hgather. simpl in Hgather. subst results.
  by rewrite (as_completed_perm _), snapshots_of_outcomes.
Qed.

Lemma snapshot_names_sublist queue_urls include_in_flight :
  (λ s : snapshot, Py.last_segment s.2) <$> snapshots_of queue_urls include_in_flight
  `sublist_of` Py.last_segment <$> queue_urls.
Proof.
  unfold snapshots_of. induction queue_urls as [|url urls IH]; [done|].
  rewrite fmap_cons. cbn [omap list_omap].
  destruct (check_queue_outcome url include_in_flight) as [[found|]|e] eqn:Hout; simpl.
  - apply outcome_found in Hout as (visible & in_flight & -> & _ & _).
    simpl. by apply sublist_skip.
  - by apply sublist_cons.
  - by apply sublist_cons.
Qed.

(** ** The filter narrows *)

Lemma filter_sublist {A : Type} (f : A → bool) (l : list A) : List.filter f l `sublist_of` l.
Proof.
  induction l as [|x l IH]; [done|]. simpl.
  destruct (f x); [by apply sublist_skip | by apply sublist_cons].
Qed.

Lemma filter_filter {A : Type} (f : A → bool) (l : list A) :
  List.filter f (List.filter f l) = List.filter f l.
Proof.
  induction l as [|x l IH]; [done|]. simpl.
  destruct (f x) eqn:Hx; [|done]. simpl. by rewrite Hx, IH.
Qed.

(** X9: with a pattern that is absent, empty or valid, the filter returns
    some of its input in the order of the input, writes nothing, and
    filtering what it kept again keeps all of it. *)
Theorem filter_narrows queue_urls pattern w :
  pattern_compiles pattern = true →
  ∃ kept,
    filter_queues_by_pattern queue_urls pattern w = (Ret kept, w)
    ∧ kept `sublist_of` queue_urls
    ∧ (length kept ≤ length queue_urls)%nat
    ∧ filter_queues_by_pattern kept pattern w = (Ret kept, w).
Proof.
  unfold pattern_compiles. intros Hc.
  destruct (pattern_given pattern) as [p|] eqn:Hp.
  - destruct (re_compile re p IGNORECASE) as [regex|msg] eqn:Hre; [|done].
    eexists. rewrite !(filter_valid _ _ p regex) by done.
    split; [done|]. split; [apply filter_sublist|].
    split; [apply sublist_length, filter_sublist|].
    by rewrite filter_filter.
  - exists queue_urls. rewrite !filter_absent by done. done.
Qed.

(** ** The countdown, turn by turn *)

(** X10: when the keyboard brings, for each second of the duration,
    nothing or a key other than r and q, [countdown] shows every second
    from the duration down to 1, takes one of these events at each, and
    returns [False] with the terminal as it found it: a key that is not
    recognised uses up a second of the countdown. *)
Theorem countdown_runs_out duration keys rest w :
  0 ≤ duration →
  stdin w = (keys ++ rest)%list →
  length keys = Z.to_nat duration →
  forallb uneventful keys = true →
  countdown duration w
  = (Ret false,
     {| trace := trace w ++ ticks_events (Py.len (Py.str duration))
                              (range_down (Z.to_nat duration)) keys;
        stdin := rest;
        tty := tty w |}).
Proof.
  intros Hpos Hkeys Hlen Hall.
  rewrite countdown_resume, resume_countdown_run, <- Hlen.
  by rewrite (ticks_uneventful _ keys rest).
Qed.

(** When the first turn of the loop ends the countdown, by a [return] or
    by an exception, the terminal is put back and that is how [countdown]
    ends. *)
Lemma countdown_first_turn_ends duration w r w1 :
  0 < duration →
  tick (Py.len (Py.str duration)) duration (set_mode Cbreak w) = (r, w1) →
  r ≠ Ret None →
  countdown duration w
  = (match r with
     | Ret (Some b) => Ret b
     | Ret None => Ret false
     | Exc e => Exc e
     end,
     set_mode (tty w) w1).
Proof.
  intros Hpos Htick Hends.
  rewrite countdown_resume, resume_countdown_run.
  destruct (Z.to_nat duration) as [|n] eqn:Hn; [lia|].
  assert (Hi : Z.of_nat (S n) = duration) by lia.
  cbn [range_down for_loop]. rewrite Hi, bind_run, Htick.
  by destruct r as [[b|]|e].
Qed.

(** X11: the interrupt signal during a wait of [countdown] comes out of it
    as [KeyboardInterrupt], after the line of that second and with the
    terminal put back in the mode it was in. *)
Theorem countdown_interrupted duration rest w :
  0 < duration →
  stdin w = CtrlC :: rest →
  countdown duration w
  = (Exc KeyboardInterrupt, after_wait (Py.len (Py.str duration)) duration rest w)
  ∧ tty (countdown duration w).2 = tty w.
Proof.
  intros Hpos Hkeys.
  assert (Htick : tick (Py.len (Py.str duration)) duration (set_mode Cbreak w)
                  = (Exc KeyboardInterrupt,
                     after_wait (Py.len (Py.str duration)) duration rest
                       (set_mode Cbreak w))).
  { by apply tick_interrupt. }
  rewrite (countdown_first_turn_ends _ _ _ _ Hpos Htick) by done.
  by split.
Qed.

(** ** What the countdown never does *)

(** A turn of the loop, whatever the keyboard brings: the line of the
    second, one wait, then lines only; the terminal mode is not touched. *)
Lemma tick_shape duration_len i w :
  tty (tick duration_len i w).2 = tty w
  ∧ ∃ lines,
      trace (tick duration_len i w).2
      = (trace w ++ Write (refresh_text duration_len i) :: Select :: lines)%list
      ∧ forallb is_write lines = true.
Proof.
  destruct (stdin w) as [|[|c| |] rest] eqn:Hkeys.
  - rewrite tick_keyboard_empty by done. split; [done|]. by exists [].
  - rewrite (tick_no_key _ _ rest) by done. split; [done|]. by exists [].
  - rewrite (tick_key _ _ c rest) by done.
    destruct (Ascii.eqb (Py.lower_char c) "r"); [|destruct (Ascii.eqb (Py.lower_char c) "q")].
    + split; [done|]. by exists [Write clear_line_text].
    + split; [done|]. exists [Write clear_line_text; Write quit_text].
      split; [|done]. unfold log, after_key. simpl. by rewrite <- app_assoc.
    + split; [done|]. by exists [Write clear_line_text].
  - rewrite (tick_end_of_input _ _ rest) by done.
    split; [done|]. by exists [Write clear_line_text].
  - rewrite (tick_interrupt _ _ rest) by done. split; [done|]. by exists [].
Qed.

Lemma writes_are_countdown_events lines :
  forallb is_write lines = true →
  forallb is_countdown_event lines = true
  ∧ List.filter is_keyboard_wait lines = [].
Proof.
  induction lines as [|e lines IH]; [done|]. simpl.
  destruct e; try done.
Qed.

Lemma ticks_shape duration_len seconds : ∀ w,
  tty (for_loop seconds (tick duration_len) w).2 = tty w
  ∧ ∃ events,
      trace (for_loop seconds (tick duration_len) w).2 = (trace w ++ events)%list
      ∧ forallb is_countdown_event events = true
      ∧ (length (List.filter is_keyboard_wait events) ≤ length seconds)%nat.
Proof.
  induction seconds as [|i seconds IH]; intros w.
  - simpl. split; [done|]. exists []. by rewrite app_nil_r.
  - cbn [for_loop]. rewrite bind_run.
    destruct (tick_shape duration_len i w) as (Htty & lines & Htrace & Hlines).
    apply writes_are_countdown_events in Hlines as [Hlines Hnone].
    assert (Hone : (length (List.filter is_keyboard_wait
                              (Write (refresh_text duration_len i) :: Select :: lines))
                    = 1)%nat) by (simpl; by rewrite Hnone).
    destruct (tick duration_len i w) as [[[b|]|e] w1]; simpl in Htty, Htrace.
    + split; [done|]. eexists. split; [exact Htrace|].
      split; [exact Hlines|]. rewrite Hone. simpl. lia.
    + destruct (IH w1) as (Htty' & events & Htrace' & Hevents & Hcount).
      split; [congruence|].
      exists (Write (refresh_text duration_len i) :: Select :: lines ++ events)%list.
      split; [|split].
      * rewrite Htrace', Htrace, <- app_assoc. done.
      * simpl. by rewrite forallb_app, Hlines, Hevents.
      * change (Write (refresh_text duration_len i) :: Select :: lines ++ events)%list
          with ((Write (refresh_text duration_len i) :: Select :: lines) ++ events)%list.
        rewrite List.filter_app, List.length_app, Hone. simpl. lia.
    + split; [done|]. eexists. split; [exact Htrace|].
      split; [exact Hlines|]. rewrite Hone. simpl. lia.
Qed.

(** X12: whatever is typed, and however it ends (by returning, by the
    quit key or by the interrupt signal), [countdown] leaves the terminal in
    the mode it found it in, adds to the trace lines and waits on the
    keyboard only, so calls nothing of the service, and waits at most as
    many times as the duration has seconds. *)
Theorem countdown_is_contained duration w :
  tty (countdown duration w).2 = tty w
  ∧ ∃ events,
      trace (countdown duration w).2 = (trace w ++ events)%list
      ∧ forallb is_countdown_event events = true
      ∧ (length (List.filter is_keyboard_wait events) ≤ Z.to_nat duration)%nat.
Proof.
  rewrite countdown_resume, resume_countdown_run.
  destruct (ticks_shape (Py.len (Py.str duration)) (range_down (Z.to_nat duration))
              (set_mode Cbreak w)) as (_ & events & Htrace & Hevents & Hcount).
  rewrite length_range_down in Hcount.
  destruct (for_loop (range_down (Z.to_nat duration)) (tick (Py.len (Py.str duration)))
              (set_mode Cbreak w)) as [[[b|]|e] w1];
    simpl in *; (split; [done|]); exists events; by repeat split.
Qed.

(** ** What a whole run never does *)

Lemma extends_refl P w : extends P w w.
Proof. split; [done|]. exists []. by rewrite app_nil_r. Qed.

Lemma extends_trans P w1 w2 w3 : extends P w1 w2 → extends P w2 w3 → extends P w1 w3.
Proof.
  intros (Htty & es & Htrace & Hes) (Htty' & es' & Htrace' & Hes').
  split; [congruence|]. exists (es ++ es')%list.
  split; [by rewrite Htrace', Htrace, app_assoc | by rewrite forallb_app, Hes, Hes'].
Qed.

Lemma extends_log P events w : forallb P events = true → extends P w (log events w).
Proof. intros H. split; [done|]. by exists events. Qed.

Lemma forallb_weaken (P Q : event → bool) events :
  (∀ e, P e = true → Q e = true) → forallb P events = true → forallb Q events = true.
Proof.
  intros HPQ. induction events as [|e events IH]; [done|]. simpl.
  intros [He Hes]%andb_true_iff. by rewrite (HPQ e He), IH.
Qed.

Section Discipline.

Variable queue_urls : list string.
Variable with_in_flight : bool.

Let allowed : event → bool :=
  fetches_only queue_urls (requested_attributes with_in_flight).

Lemma countdown_extends duration w : extends allowed w (countdown duration w).2.
Proof.
  rewrite countdown_resume, resume_countdown_run.
  destruct (ticks_shape (Py.len (Py.str duration)) (range_down (Z.to_nat duration))
              (set_mode Cbreak w)) as (_ & events & Htrace & Hevents & _).
  assert (Hallowed : forallb allowed events = true).
  { eapply forallb_weaken; [|exact Hevents]. by intros []. }
  destruct (for_loop (range_down (Z.to_nat duration)) (tick (Py.len (Py.str duration)))
              (set_mode Cbreak w)) as [[[b|]|e] w1];
    simpl in *; (split; [done|]); by exists events.
Qed.

Lemma writes_allowed lines : forallb is_write lines = true → forallb allowed lines = true.
Proof. apply forallb_weaken. by intros []. Qed.

Lemma display_events_are_writes results in_flight :
  forallb is_write (display_events results in_flight) = true.
Proof.
  unfold display_events. destruct results as [|r rs]; [done|].
  cbn [forallb is_write andb].
  generalize (printed_row in_flight (sorted_display_results (r :: rs))). intros text.
  induction (sorted_display_results (r :: rs)) as [|row rows IH]; [done|]. exact IH.
Qed.

Lemma progress_events_are_writes total_queues completed : ∀ processed_queues,
  forallb is_write (progress_events total_queues processed_queues completed) = true.
Proof.
  induction completed as [|future rest IH]; intros processed_queues; [done|].
  simpl. destruct future; [apply IH|done].
Qed.

Lemma fetch_events_allowed urls :
  (∀ url, url ∈ urls → url ∈ queue_urls) →
  forallb allowed (fetch_events urls with_in_flight) = true.
Proof.
  induction urls as [|url urls IH]; intros Hsub; [done|].
  cbn [fetch_events fmap list_fmap forallb]. apply andb_true_iff. split.
  - unfold allowed, fetches_only. apply andb_true_iff.
    split; apply bool_decide_eq_true; [apply Hsub, elem_of_cons; by left | done].
  - apply IH. intros u Hu. apply Hsub, elem_of_cons. by right.
Qed.

Lemma get_queue_infos_extends workers w :
  extends allowed w (get_queue_infos queue_urls workers with_in_flight w).2.
Proof.
  destruct (Z.leb_spec workers 0) as [Hw|Hw].
  - rewrite get_queue_infos_no_workers by done. apply extends_refl.
  - rewrite get_queue_infos_run by done. apply extends_log.
    rewrite forallb_app, fetch_events_allowed by done.
    apply writes_allowed, progress_events_are_writes.
Qed.

Lemma display_results_extends results w :
  extends allowed w (display_results results with_in_flight w).2.
Proof.
  rewrite display_results_run. apply extends_log, writes_allowed, display_events_are_writes.
Qed.

Lemma watch_loop_extends args n :
  with_in_flight = include_in_flight args →
  ∀ cycles w, extends allowed w (watch_loop cycles queue_urls args n w).2.
Proof.
  intros Hflag. induction cycles as [|cycles IH]; intros w.
  - apply extends_refl.
  - cbn [watch_loop]. rewrite bind_run. rewrite <- Hflag.
    pose proof (get_queue_infos_extends (workers args) w) as Hpoll.
    destruct (get_queue_infos queue_urls (workers args) with_in_flight w)
      as [[results|e] w1]; [|exact Hpoll].
    simpl in Hpoll. rewrite bind_run. unfold os_system_clear. rewrite emit_run, bind_run.
    pose proof (display_results_extends results (log [ClearScreen] w1)) as Hshow.
    destruct (display_results results with_in_flight (log [ClearScreen] w1))
      as [[[]|e] w2]; simpl in Hshow.
    + rewrite bind_run.
      pose proof (countdown_extends n w2) as Hcount.
      destruct (countdown n w2) as [[b|e] w3]; simpl in Hcount.
      * eapply extends_trans; [|apply IH].
        eapply extends_trans; [|exact Hcount].
        eapply extends_trans; [|exact Hshow].
        eapply extends_trans; [exact Hpoll|]. by apply extends_log.
      * eapply extends_trans; [|exact Hcount].
        eapply extends_trans; [|exact Hshow].
        eapply extends_trans; [exact Hpoll|]. by apply extends_log.
    + eapply extends_trans; [|exact Hshow].
      eapply extends_trans; [exact Hpoll|]. by apply extends_log.
Qed.

End Discipline.

Lemma run_script_world cycles args w :
  (run_script cycles args w).2 = (main cycles args w).2.
Proof.
  rewrite run_script_main.
  destruct (main cycles args w) as [[[|]|e] w']; try done. by destruct e.
Qed.

Lemma main_extends P cycles args w :
  (∀ e, is_write e = true → P e = true) →
  extends P (main_try cycles args w).2 (main cycles args w).2.
Proof.
  intros HP. rewrite main_run.
  destruct (main_try cycles args w) as [[r|e] w']; [apply extends_refl|].
  destruct e; try apply extends_refl.
  unfold quit. rewrite bind_run, print_run. simpl. rewrite log_log.
  apply extends_log. simpl. by rewrite !HP.
Qed.

Lemma prelude_events_shape response pattern :
  ∃ lines,
    prelude_events response pattern
    = Write "Reading list of queues..." :: ListQueues :: lines
    ∧ forallb is_write lines = true.
Proof.
  unfold prelude_events. destruct (pattern_given pattern); eexists; split; done.
Qed.

Lemma main_try_invalid cycles args w response p msg :
  list_queues sqs = Ret response →
  pattern_given (pattern args) = Some p →
  re_compile re p IGNORECASE = inr msg →
  main_try cycles args w
  = (Exc (SystemExit 1),
     log [Write "Reading list of queues..."; ListQueues; Write (invalid_pattern_text p msg)] w).
Proof.
  intros Hlist Hp Hc. unfold main_try.
  rewrite bind_run, print_end_run, bind_run, call_list_queues_run, Hlist.
  rewrite bind_run, Hp, bind_run.
  rewrite (filter_invalid _ _ p msg) by done.
  by rewrite !log_log.
Qed.

Lemma main_try_shape cycles args w response :
  list_queues sqs = Ret response →
  ∃ lines,
    forallb is_write lines = true
    ∧ extends (fetches_only (selected response (pattern args))
                 (requested_attributes (include_in_flight args)))
        (log (Write "Reading list of queues..." :: ListQueues :: lines) w)
        (main_try cycles args w).2.
Proof.
  intros Hlist.
  destruct (pattern_compiles (pattern args)) eqn:Hc.
  - destruct (prelude_events_shape response (pattern args)) as (lines & Hpre & Hlines).
    exists lines. split; [done|].
    rewrite (main_try_prelude _ _ _ response) by done. rewrite Hpre.
    set (w0 := log (Write "Reading list of queues..." :: ListQueues :: lines) w).
    destruct (watch args) as [n|].
    + by apply watch_loop_extends.
    + rewrite bind_run.
      pose proof (get_queue_infos_extends (selected response (pattern args))
                    (include_in_flight args) (workers args) w0) as Hpoll.
      destruct (get_queue_infos (selected response (pattern args)) (workers args)
                  (include_in_flight args) w0) as [[results|e] w1]; [|exact Hpoll].
      simpl in Hpoll. rewrite bind_run, display_results_run.
      eapply extends_trans; [exact Hpoll|].
      destruct results; apply extends_log, writes_allowed, display_events_are_writes.
  - unfold pattern_compiles in Hc.
    destruct (pattern_given (pattern args)) as [p|] eqn:Hp; [|done].
    destruct (re_compile re p IGNORECASE) as [regex|msg] eqn:Hre; [done|].
    exists [Write (invalid_pattern_text p msg)]. split; [done|].
    rewrite (main_try_invalid _ _ _ response p msg) by done. apply extends_refl.
Qed.

(** X13: in every run whose listing succeeds, with or without [--watch],
    for any number of cycles and whatever is typed: the queues are listed
    once, first; every other call to the service fetches one of the queues
    that the pattern kept, asking for the attribute names of the
    [--include-in-flight] setting; and the terminal ends in the mode it
    started in. *)
Theorem run_calls_only_selected cycles args w response :
  list_queues sqs = Ret response →
  tty (run_script cycles args w).2 = tty w
  ∧ ∃ events,
      trace (run_script cycles args w).2
      = (trace w ++ Write "Reading list of queues..." :: ListQueues :: events)%list
      ∧ forallb (fetches_only (selected response (pattern args))
                   (requested_attributes (include_in_flight args))) events = true.
Proof.
  intros Hlist. rewrite run_script_world.
  destruct (main_try_shape cycles args w response Hlist) as (lines & Hlines & Hbody).
  pose proof (main_extends
                (fetches_only (selected response (pattern args))
                   (requested_attributes (include_in_flight args)))
                cycles args w ltac:(by intros [])) as Hmain.
  destruct (extends_trans _ _ _ _ Hbody Hmain) as (Htty & events & Htrace & Hevents).
  split; [done|].
  exists (lines ++ events)%list. split.
  - rewrite Htrace. unfold log. simpl. by rewrite <- app_assoc.
  - rewrite forallb_app, Hevents, andb_true_r.
    eapply forallb_weaken; [|exact Hlines]. by intros [].
Qed.

(** ** How a run ends when the listing fails or the user leaves *)

(** X14: when the listing of the queues fails, the run ends there: no
    pattern is compiled, no queue is fetched, nothing is rendered. The
    status is 1 (a traceback), unless the failure is the interrupt signal,
    which ends the run with the message of [quit] and status 0, or a
    [SystemExit], which ends it with its own code. *)
Theorem listing_failure_ends_run cycles args w e :
  list_queues sqs = Exc e →
  run_script cycles args w
  = match e with
    | KeyboardInterrupt =>
        (Exited 0,
         log [Write "Reading list of queues..."; ListQueues;
              Write clear_line_text; Write quit_text] w)
    | SystemExit code =>
        (Exited code, log [Write "Reading list of queues..."; ListQueues] w)
    | _ => (Exited 1, log [Write "Reading list of queues..."; ListQueues] w)
    end.
Proof.
  intros Hlist. rewrite run_script_main, main_run. unfold main_try.
  rewrite bind_run, print_end_run, bind_run, call_list_queues_run, Hlist.
  rewrite log_log.
  destruct e; try done.
  unfold quit. by rewrite bind_run, print_run, !log_log.
Qed.

Lemma countdown_quit_key duration c rest w :
  0 < duration →
  stdin w = Key c :: rest →
  c = "q"%char ∨ c = "Q"%char →
  countdown duration w
  = (Exc (SystemExit 0),
     log [Write quit_text] (after_key (Py.len (Py.str duration)) duration rest w)).
Proof.
  intros Hpos Hkeys Hq.
  rewrite countdown_resume, resume_countdown_run.
  destruct (Z.to_nat duration) as [|n] eqn:Hn; [lia|].
  assert (Hi : Z.of_nat (S n) = duration) by lia.
  cbn [range_down for_loop]. rewrite Hi, bind_run.
  rewrite (tick_key _ _ c rest) by done.
  assert (Hr : Ascii.eqb (Py.lower_char c) "r" = false) by (by destruct Hq as [->| ->]).
  assert (Hq' : Ascii.eqb (Py.lower_char c) "q" = true) by (by destruct Hq as [->| ->]).
  by rewrite Hr, Hq'.
Qed.

Lemma poll_keeps_keyboard queue_urls workers include_in_flight w r w' :
  get_queue_infos queue_urls workers include_in_flight w = (r, w') → stdin w' = stdin w.
Proof.
  intros Hrun.
  destruct (get_queue_infos_without_keyboard queue_urls workers include_in_flight w)
    as (events & Hw' & _).
  rewrite Hrun in Hw'. simpl in Hw'. by subst w'.
Qed.

Lemma watch_first_cycle cycles args w response results w' n :
  watch args = Some n →
  list_queues sqs = Ret response →
  pattern_compiles (pattern args) = true →
  get_queue_infos (selected response (pattern args)) (workers args) (include_in_flight args)
    (log (prelude_events response (pattern args)) w)
  = (Ret results, w') →
  main_try (S cycles) args w
  = (_ ← countdown n;
     watch_loop cycles (selected response (pattern args)) args n)
      (log (ClearScreen :: display_events results (include_in_flight args)) w').
Proof.
  intros Hwatch Hlist Hc Hpoll.
  rewrite (main_try_prelude _ _ _ response) by done.
  rewrite Hwatch. cbn [watch_loop].
  rewrite bind_run, Hpoll, bind_run. unfold os_system_clear.
  rewrite emit_run, bind_run, display_results_run, log_log. done.
Qed.

(** X15: under [--watch], once the first poll has been rendered, the
    quit key (q or Q) at the first second of the countdown ends the
    process with status 0 after the message of [quit]; so does the
    interrupt signal, after the line has been cleared; either way the
    terminal is back in the mode it was in. *)
Theorem watch_left_by_user cycles args w response results w' n :
  watch args = Some n →
  0 < n →
  list_queues sqs = Ret response →
  pattern_compiles (pattern args) = true →
  get_queue_infos (selected response (pattern args)) (workers args) (include_in_flight args)
    (log (prelude_events response (pattern args)) w)
  = (Ret results, w') →
  (∀ c rest,
     stdin w = Key c :: rest →
     c = "q"%char ∨ c = "Q"%char →
     run_script (S cycles) args w
     = (Exited 0,
        log [Write quit_text]
          (after_key (Py.len (Py.str n)) n rest
             (log (ClearScreen :: display_events results (include_in_flight args)) w'))))
  ∧ (∀ rest,
       stdin w = CtrlC :: rest →
       run_script (S cycles) args w
       = (Exited 0,
          log [Write clear_line_text; Write quit_text]
            (after_wait (Py.len (Py.str n)) n rest
               (log (ClearScreen :: display_events results (include_in_flight args)) w')))).
Proof.
  intros Hwatch Hpos Hlist Hc Hpoll.
  pose proof (poll_keeps_keyboard _ _ _ _ _ _ Hpoll) as Hkeys. simpl in Hkeys.
  split.
  - intros c rest Hstdin Hq.
    rewrite run_script_main, main_run, (watch_first_cycle _ _ _ response results w' n) by done.
    rewrite bind_run, (countdown_quit_key _ c rest); [done|done| |done].
    simpl. congruence.
  - intros rest Hstdin.
    rewrite run_script_main, main_run, (watch_first_cycle _ _ _ response results w' n) by done.
    assert (Htick : tick (Py.len (Py.str n)) n
                      (set_mode Cbreak
                         (log (ClearScreen :: display_events results (include_in_flight args)) w'))
                    = (Exc KeyboardInterrupt,
                       after_wait (Py.len (Py.str n)) n rest
                         (set_mode Cbreak
                            (log (ClearScreen
                                  :: display_events results (include_in_flight args)) w')))).
    { apply tick_interrupt. simpl. congruence. }
    rewrite bind_run, (countdown_first_turn_ends _ _ _ _ Hpos Htick) by done.
    unfold quit. by rewrite bind_run, print_run, log_log.
Qed.

(** ** Lines that overwrite one another *)

Lemma len_app s t : Py.len (s +:+ t) = Py.len s + Py.len t.
Proof. unfold Py.len. rewrite length_app. lia. Qed.

(** X16: the seconds of a countdown are written right-justified in the
    width of the duration, so every line of a countdown is as long as the
    first one and overwrites the line before it entirely; and the progress
    line of a poll never gets shorter as the count goes up. *)
Theorem lines_overwrite_cleanly :
  (∀ duration i,
     0 < i ≤ duration →
     Py.len (refresh_text (Py.len (Py.str duration)) i)
     = Py.len (refresh_text (Py.len (Py.str duration)) duration))
  ∧ (∀ processed_queues total_queues,
       0 ≤ processed_queues →
       Py.len (progress_text processed_queues total_queues)
       ≤ Py.len (progress_text (processed_queues + 1) total_queues)).
Proof.
  split.
  - intros duration i Hi. unfold refresh_text.
    rewrite !len_app.
    rewrite !len_rjust; [done|lia|].
    apply str_length_mono. lia.
  - intros processed_queues total_queues Hpos. unfold progress_text.
    rewrite !len_app.
    pose proof (str_length_mono processed_queues (processed_queues + 1) ltac:(lia)).
    lia.
Qed.

(** ** The display name *)

(** X17: the display name [url.split('/')[-1]] is what follows the last
    slash: it holds no slash itself, a text without a slash is its own
    display name, and so is the name of any URL that ends with a slash and
    that text. *)
Theorem display_name_follows_last_slash :
  (∀ url, has_slash (Py.last_segment url) = false)
  ∧ (∀ name, has_slash name = false → Py.last_segment name = name)
  ∧ (∀ prefix name,
       has_slash name = false → Py.last_segment (prefix +:+ String "/" name) = name).
Proof.
  assert (Hplain : ∀ name, has_slash name = false → Py.last_segment name = name).
  { intros name Hname. unfold Py.last_segment, Py.split.
    by rewrite split_slash_plain. }
  split; [|split].
  - intros url. unfold Py.last_segment, Py.split.
    pose proof (split_slash_segments url EmptyString eq_refl) as Hall.
    pose proof (split_slash_not_nil url EmptyString) as Hne.
    induction (Py.split_slash url EmptyString) as [|segment segments IH]; [done|].
    apply Forall_cons in Hall as [Hsegment Hall].
    destruct segments as [|next segments]; [done|].
    rewrite last_cons_not_nil by done. by apply IH.
  - exact Hplain.
  - intros prefix name Hname. unfold Py.last_segment, Py.split.
    rewrite last_after_slash. by apply Hplain.
Qed.

End Script.

(** * The properties on the stand-ins *)

(** ** The small engine on [^dlq] *)

Lemma bol_not_later fl re s :
  MiniRe.search_from fl (MiniRe.One MiniRe.Bol :: re) false s = false.
Proof. induction s as [|c s IH]; [done|]. simpl. exact IH. Qed.

Lemma caret_dlq_compiled : MiniRe.compile "^dlq" IGNORECASE = inl Demo.caret_dlq.
Proof. reflexivity. Qed.

Lemma caret_dlq_search s : MiniRe.search Demo.caret_dlq s = starts_with_ci "dlq" s.
Proof.
  unfold MiniRe.search, starts_with_ci. cbn [Demo.caret_dlq MiniRe.items MiniRe.flags].
  destruct s as [|c1 s]; [done|].
  cbn [MiniRe.search_from]. rewrite bol_not_later, orb_false_r.
  destruct s as [|c2 s]; [cbn; by rewrite ?andb_false_r|].
  destruct s as [|c3 s]; [cbn; by rewrite ?andb_false_r|].
  cbn. by rewrite andb_true_r.
Qed.

(** ** The orders of completion *)

Lemma in_order_perm (futures : list (result (option snapshot))) :
  Demo.in_order futures ≡ₚ futures.
Proof. reflexivity. Qed.

Lemma last_first_perm (futures : list (result (option snapshot))) :
  Demo.last_first futures ≡ₚ futures.
Proof. unfold Demo.last_first. symmetry. apply Permutation_rev. Qed.

(** ** The properties at the stand-ins *)

(** The poll of the four listed queues, completed last first: the idle
    queue and the deleted one are left out. *)
Lemma poll_result_totals_positive_witness :
  forallb (counts_nonnegative Demo.sqs true) Demo.listed = true
  ∧ (get_queue_infos Demo.sqs Demo.last_first Demo.listed 4 true Demo.quiet).1
    = Ret [(1, 0, Demo.dlq_orders); (3, 7, Demo.orders)]
  ∧ Forall (λ s, 0 < total_count (displayable (console_home Demo.region) s))
      [(1, 0, Demo.dlq_orders); (3, 7, Demo.orders)]
  ∧ ∀ s, s ∈ [(1, 0, Demo.dlq_orders); (3, 7, Demo.orders)] → s.2 ≠ Demo.idle.
Proof.
  assert (Hcounts : forallb (counts_nonnegative Demo.sqs true) Demo.listed = true)
    by reflexivity.
  assert (Hrun : get_queue_infos Demo.sqs Demo.last_first Demo.listed 4 true Demo.quiet
                 = (Ret [(1, 0, Demo.dlq_orders); (3, 7, Demo.orders)],
                    (get_queue_infos Demo.sqs Demo.last_first Demo.listed 4 true Demo.quiet).2))
    by (vm_compute; reflexivity).
  destruct (poll_result_totals_positive Demo.sqs Demo.region Demo.last_first last_first_perm
              Demo.listed 4 true Demo.quiet _ _ Hcounts Hrun) as [Hall Hzero].
  split; [exact Hcounts|]. split; [by rewrite Hrun|]. split.
  - eapply Forall_impl; [exact Hall|]. intros s (? & ? & ? & _ & _ & _ & _ & Hpos). exact Hpos.
  - apply (Hzero Demo.idle 0 0); reflexivity.
Defined.

Lemma check_queue_total_witness :
  get_queue_attributes Demo.sqs Demo.orders (requested_attributes false)
  = Demo.answer "3" "7" ["ApproximateNumberOfMessages"]
  ∧ check_queue_outcome Demo.sqs Demo.orders false = Ret (Some (3, 0, Demo.orders))
  ∧ total_count (displayable (console_home Demo.region) (3, 0, Demo.orders)) = 3
  ∧ check_queue_outcome Demo.sqs Demo.orders true = Ret (Some (3, 7, Demo.orders))
  ∧ total_count (displayable (console_home Demo.region) (3, 7, Demo.orders)) = 10.
Proof.
  split; [reflexivity|].
  destruct (check_queue_total Demo.sqs Demo.region Demo.orders) as (_ & _ & _ & _ & Hexample).
  eapply Hexample; reflexivity.
Defined.

Lemma deleted_queue_is_skipped_witness :
  get_queue_attributes Demo.sqs Demo.gone (requested_attributes false) = Exc QueueDoesNotExist
  ∧ check_queue Demo.sqs Demo.gone false Demo.quiet
    = (Ret None,
       log [GetQueueAttributes Demo.gone (requested_attributes false)] Demo.quiet)
  ∧ ∃ results w',
      get_queue_infos Demo.sqs Demo.in_order Demo.listed 4 false Demo.quiet = (Ret results, w')
      ∧ ∀ s, s ∈ results → s.2 ≠ Demo.gone.
Proof.
  assert (Hgone : get_queue_attributes Demo.sqs Demo.gone (requested_attributes false)
                  = Exc QueueDoesNotExist) by reflexivity.
  destruct (deleted_queue_is_skipped Demo.sqs Demo.in_order in_order_perm Demo.gone false Hgone)
    as (Hfetch & Hpoll & _).
  split; [exact Hgone|]. split; [apply Hfetch|].
  apply Hpoll; [lia|].
  intros url Hurl Hne. unfold Demo.listed in Hurl.
  repeat (apply elem_of_cons in Hurl as [->|Hurl]; [try (eexists; reflexivity); done|]).
  by apply elem_of_nil in Hurl.
Defined.

Lemma columns_aligned_witness :
  uneven_results ≠ []
  ∧ forallb snapshot_nonnegative uneven_results = true
  ∧ display_results Demo.region uneven_results true Demo.quiet
    = (Ret (),
       log [Write clear_line_text;
            Write (BOLD +:+ "dlq-orders" +:+ RESET +:+ ": "
                   +:+ GREEN +:+ "12 msgs" +:+ RESET +:+ ", "
                   +:+ GREEN +:+ "100 in-flight" +:+ RESET +:+ ", "
                   +:+ GREEN +:+ "112 total" +:+ RESET +:+ Py.LF
                   +:+ "    https://console.aws.amazon.com/sqs/v2/home?region=eu-west-1"
                   +:+ "#/queues/https%3A%2F%2Fsqs.eu-west-1.amazonaws.com%2F123456789012%2Fdlq-orders"
                   +:+ Py.LF);
            Write (BOLD +:+ "orders    " +:+ RESET +:+ ": "
                   +:+ GREEN +:+ " 3 msgs" +:+ RESET +:+ ", "
                   +:+ GREEN +:+ "  7 in-flight" +:+ RESET +:+ ", "
                   +:+ GREEN +:+ " 10 total" +:+ RESET +:+ Py.LF
                   +:+ "    https://console.aws.amazon.com/sqs/v2/home?region=eu-west-1"
                   +:+ "#/queues/https%3A%2F%2Fsqs.eu-west-1.amazonaws.com%2F123456789012%2Forders"
                   +:+ Py.LF);
            Write (BOLD +:+ "x         " +:+ RESET +:+ ": "
                   +:+ GREEN +:+ " 1 msgs" +:+ RESET +:+ ", "
                   +:+ GREEN +:+ "  0 in-flight" +:+ RESET +:+ ", "
                   +:+ GREEN +:+ "  1 total" +:+ RESET +:+ Py.LF
                   +:+ "    https://console.aws.amazon.com/sqs/v2/home?region=eu-west-1"
                   +:+ "#/queues/https%3A%2F%2Fsqs.eu-west-1.amazonaws.com%2F123456789012%2Fx"
                   +:+ Py.LF)] Demo.quiet)
  ∧ display_results Demo.region uneven_results false Demo.quiet
    = (Ret (),
       log [Write clear_line_text;
            Write (BOLD +:+ "dlq-orders" +:+ RESET +:+ ": "
                   +:+ GREEN +:+ "12 msgs" +:+ RESET +:+ Py.LF
                   +:+ "    https://console.aws.amazon.com/sqs/v2/home?region=eu-west-1"
                   +:+ "#/queues/https%3A%2F%2Fsqs.eu-west-1.amazonaws.com%2F123456789012%2Fdlq-orders"
                   +:+ Py.LF);
            Write (BOLD +:+ "orders    " +:+ RESET +:+ ": "
                   +:+ GREEN +:+ " 3 msgs" +:+ RESET +:+ Py.LF
                   +:+ "    https://console.aws.amazon.com/sqs/v2/home?region=eu-west-1"
                   +:+ "#/queues/https%3A%2F%2Fsqs.eu-west-1.amazonaws.com%2F123456789012%2Forders"
                   +:+ Py.LF);
            Write (BOLD +:+ "x         " +:+ RESET +:+ ": "
                   +:+ GREEN +:+ " 1 msgs" +:+ RESET +:+ Py.LF
                   +:+ "    https://console.aws.amazon.com/sqs/v2/home?region=eu-west-1"
                   +:+ "#/queues/https%3A%2F%2Fsqs.eu-west-1.amazonaws.com%2F123456789012%2Fx"
                   +:+ Py.LF)] Demo.quiet).
Proof.
  assert (Hne : uneven_results ≠ []) by discriminate.
  assert (Hpos : forallb snapshot_nonnegative uneven_results = true) by reflexivity.
  split; [exact Hne|]. split; [exact Hpos|]. split.
  - destruct (columns_aligned Demo.region uneven_results true Demo.quiet Hne Hpos) as [Hrun _].
    rewrite Hrun. vm_compute. reflexivity.
  - destruct (columns_aligned Demo.region uneven_results false Demo.quiet Hne Hpos) as [Hrun _].
    rewrite Hrun. vm_compute. reflexivity.
Defined.

Lemma filter_keeps_matching_names_witness :
  re_compile MiniRe.module "^dlq" IGNORECASE = inl Demo.caret_dlq
  ∧ filter_queues_by_pattern MiniRe.module ["dlq-orders"; "orders-dlq"; "DLQ-users"]
      (Some "^dlq") Demo.quiet
    = (Ret ["dlq-orders"; "DLQ-users"], Demo.quiet)
  ∧ filter_queues_by_pattern MiniRe.module
      ["https://sqs.eu-west-1.amazonaws.com/123456789012/dlq-orders";
       "https://sqs.eu-west-1.amazonaws.com/123456789012/orders-dlq";
       "https://sqs.eu-west-1.amazonaws.com/123456789012/DLQ-users"]
      (Some "^dlq") Demo.quiet
    = (Ret ["https://sqs.eu-west-1.amazonaws.com/123456789012/dlq-orders";
            "https://sqs.eu-west-1.amazonaws.com/123456789012/DLQ-users"], Demo.quiet).
Proof.
  split; [reflexivity|].
  destruct (filter_keeps_matching_names MiniRe.module) as (_ & _ & Hnames & Hurls).
  split.
  - apply (Hnames Demo.caret_dlq Demo.quiet); [reflexivity | exact caret_dlq_search].
  - apply (Hurls Demo.caret_dlq Demo.quiet "https://sqs.eu-west-1.amazonaws.com/123456789012");
      [reflexivity | exact caret_dlq_search].
Defined.

(** C3 fails as it is worded: with the invalid pattern [*] the queues are
    listed, a call to the service, before the pattern is compiled. *)
Lemma invalid_pattern_listed_first :
  ¬ exits_before_any_network_call Demo.sqs MiniRe.module Demo.region Demo.in_order
      0 (Demo.once (Some "*") false) Demo.quiet.
Proof.
  intros Hworded.
  destruct (Hworded "*" "nothing to repeat at position 0" eq_refl eq_refl) as (_ & _ & Hnone).
  vm_compute in Hnone. discriminate Hnone.
Qed.

Lemma invalid_pattern_exits_after_listing_witness :
  list_queues Demo.sqs = Ret {| QueueUrls := Some Demo.listed |}
  ∧ re_compile MiniRe.module "*" IGNORECASE = inr "nothing to repeat at position 0"
  ∧ run_script Demo.sqs MiniRe.module Demo.region Demo.in_order 0
      (Demo.once (Some "*") false) Demo.quiet
    = (Exited 1,
       log [Write "Reading list of queues..."; ListQueues;
            Write (invalid_pattern_text "*" "nothing to repeat at position 0")] Demo.quiet).
Proof.
  split; [reflexivity|]. split; [reflexivity|].
  apply (invalid_pattern_exits_after_listing Demo.sqs MiniRe.module Demo.region Demo.in_order
           0 (Demo.once (Some "*") false) Demo.quiet {| QueueUrls := Some Demo.listed |}
           "*" "nothing to repeat at position 0"); reflexivity.
Defined.

(** Status 1 when the listed queues hold messages, status 0 when the
    pattern keeps the idle queue alone. *)
Lemma exit_status_tells_messages_witness :
  (run_script Demo.sqs MiniRe.module Demo.region Demo.in_order 0
     (Demo.once None false) Demo.quiet).1 = Exited 1
  ∧ (run_script Demo.sqs MiniRe.module Demo.region Demo.in_order 0
       (Demo.once (Some "^idle$") false) Demo.quiet).1 = Exited 0.
Proof.
  split.
  - erewrite (exit_status_tells_messages Demo.sqs MiniRe.module Demo.region Demo.in_order
                0 (Demo.once None false) Demo.quiet {| QueueUrls := Some Demo.listed |}
                [(3, 0, Demo.orders); (1, 0, Demo.dlq_orders)]);
      [reflexivity | reflexivity | reflexivity | reflexivity | vm_compute; reflexivity].
  - erewrite (exit_status_tells_messages Demo.sqs MiniRe.module Demo.region Demo.in_order
                0 (Demo.once (Some "^idle$") false) Demo.quiet
                {| QueueUrls := Some Demo.listed |} []);
      [reflexivity | reflexivity | reflexivity | reflexivity | vm_compute; reflexivity].
Defined.

Lemma keypress_ignores_case_witness :
  (length [NoKey; Key "x"] < Z.to_nat 10)%nat
  ∧ forallb uneventful [NoKey; Key "x"] = true
  ∧ countdown 10 (Demo.typing [NoKey; Key "x"; Key "R"; NoKey])
    = (Ret true,
       {| trace := [Write (refresh_text 2 10); Select;
                    Write (refresh_text 2 9); Select; Write clear_line_text;
                    Write (refresh_text 2 8); Select; Write clear_line_text];
          stdin := [NoKey];
          tty := Cooked |})
  ∧ countdown 10 (Demo.typing [NoKey; Key "x"; Key "r"; NoKey])
    = (Ret true,
       {| trace := [Write (refresh_text 2 10); Select;
                    Write (refresh_text 2 9); Select; Write clear_line_text;
                    Write (refresh_text 2 8); Select; Write clear_line_text];
          stdin := [NoKey];
          tty := Cooked |})
  ∧ countdown 10 (Demo.typing [NoKey; Key "x"; Key "Q"; NoKey])
    = (Exc (SystemExit 0),
       {| trace := [Write (refresh_text 2 10); Select;
                    Write (refresh_text 2 9); Select; Write clear_line_text;
                    Write (refresh_text 2 8); Select; Write clear_line_text;
                    Write quit_text];
          stdin := [NoKey];
          tty := Cooked |})
  ∧ countdown 10 (Demo.typing [NoKey; Key "x"; Key "y"; NoKey])
    = resume_countdown 2 7
        {| trace := [Write (refresh_text 2 10); Select;
                     Write (refresh_text 2 9); Select; Write clear_line_text;
                     Write (refresh_text 2 8); Select; Write clear_line_text];
           stdin := [NoKey];
           tty := Cooked |}.
Proof.
  split; [simpl; lia|]. split; [reflexivity|]. split; [|split; [|split]].
  - apply (keypress_ignores_case 10 [NoKey; Key "x"] "R" [NoKey]
             (Demo.typing [NoKey; Key "x"; Key "R"; NoKey]));
      [simpl; lia | reflexivity | reflexivity | by right].
  - apply (keypress_ignores_case 10 [NoKey; Key "x"] "r" [NoKey]
             (Demo.typing [NoKey; Key "x"; Key "r"; NoKey]));
      [simpl; lia | reflexivity | reflexivity | by left].
  - apply (keypress_ignores_case 10 [NoKey; Key "x"] "Q" [NoKey]
             (Demo.typing [NoKey; Key "x"; Key "Q"; NoKey]));
      [simpl; lia | reflexivity | reflexivity | by right].
  - apply (keypress_ignores_case 10 [NoKey; Key "x"] "y" [NoKey]
             (Demo.typing [NoKey; Key "x"; Key "y"; NoKey]));
      [simpl; lia | reflexivity | reflexivity | discriminate..].
Defined.

Lemma countdown_without_seconds_witness :
  0 ≤ 0
  ∧ countdown 0 (Demo.typing [Key "q"]) = (Ret false, Demo.typing [Key "q"])
  ∧ stdin (watch_loop Demo.sqs Demo.region Demo.in_order 3 Demo.listed (Demo.watching 0) 0
             (Demo.typing [Key "q"])).2 = [Key "q"].
Proof.
  split; [lia|].
  destruct (countdown_without_seconds Demo.sqs Demo.region Demo.in_order 0 ltac:(lia))
    as (Hnothing & _ & Hquiet).
  split; [apply Hnothing|].
  apply (Hquiet 3%nat Demo.listed (Demo.watching 0) (Demo.typing [Key "q"])).
Defined.

(** ** Examples *)

Example str_examples :
  Py.str 0 = "0" ∧ Py.str 7 = "7" ∧ Py.str 10 = "10" ∧ Py.str 1234567 = "1234567"
  ∧ Py.str (-42) = "-42".
Proof. repeat split; reflexivity. Qed.

Example int_examples :
  Py.int "3" = Some 3 ∧ Py.int "007" = Some 7 ∧ Py.int " -12 " = Some (-12)
  ∧ Py.int "1_000" = Some 1000 ∧ Py.int EmptyString = None ∧ Py.int "1__0" = None
  ∧ Py.int "_1" = None ∧ Py.int "1_" = None ∧ Py.int "- 1" = None
  ∧ Py.int "3.5" = None.
Proof. repeat split; reflexivity. Qed.

Example split_examples :
  Py.split "a/b//c" = ["a"; "b"; EmptyString; "c"]
  ∧ Py.last_segment Demo.orders = "orders"
  ∧ Py.last_segment "orders" = "orders"
  ∧ Py.last_segment "orders/" = EmptyString.
Proof. repeat split; reflexivity. Qed.

Example quote_example :
  Py.quote "https://sqs.eu-west-1.amazonaws.com/1/a_b-c.fifo"
  = "https%3A%2F%2Fsqs.eu-west-1.amazonaws.com%2F1%2Fa_b-c.fifo".
Proof. reflexivity. Qed.

Example just_examples :
  Py.ljust "ab" 4 = "ab  " ∧ Py.rjust "ab" 4 = "  ab" ∧ Py.ljust "abc" 2 = "abc"
  ∧ Py.rjust "7" 0 = "7".
Proof. repeat split; reflexivity. Qed.

(** The small engine refuses what Python refuses. *)
Example compile_examples :
  MiniRe.compile "*" IGNORECASE = inr "nothing to repeat at position 0"
  ∧ MiniRe.compile "^*" IGNORECASE = inr "nothing to repeat at position 1"
  ∧ MiniRe.compile "a**" IGNORECASE = inr "multiple repeat at position 2".
Proof. repeat split; reflexivity. Qed.

(** The pattern is looked for anywhere in the name: [dlq] keeps all three
    names. *)
Example filter_unanchored :
  filter_queues_by_pattern MiniRe.module ["dlq-orders"; "orders-dlq"; "DLQ-users"]
    (Some "dlq") Demo.quiet
  = (Ret ["dlq-orders"; "orders-dlq"; "DLQ-users"], Demo.quiet).
Proof. reflexivity. Qed.

(** The pattern sees the name, not the URL: every URL starts with https,
    no name does, and [^dlq] finds the queue whose name starts with dlq. *)
Example filter_sees_names :
  filter_queues_by_pattern MiniRe.module Demo.listed (Some "^https") Demo.quiet
  = (Ret [], Demo.quiet)
  ∧ filter_queues_by_pattern MiniRe.module Demo.listed (Some "^DLQ") Demo.quiet
    = (Ret [Demo.dlq_orders], Demo.quiet).
Proof. split; reflexivity. Qed.

(** When the listing itself fails, the pattern is never looked at: the
    process ends with the traceback of the failure. *)
Example invalid_pattern_service_down :
  run_script Demo.sqs_down MiniRe.module Demo.region Demo.in_order 0
    (Demo.once (Some "*") false) Demo.quiet
  = (Exited 1, log [Write "Reading list of queues..."; ListQueues] Demo.quiet).
Proof. reflexivity. Qed.

(** A poll with no worker raises before any queue is fetched. *)
Example no_workers :
  get_queue_infos Demo.sqs Demo.in_order Demo.listed 0 false Demo.quiet
  = (Exc (ValueError "max_workers must be greater than 0"), Demo.quiet).
Proof. reflexivity. Qed.

(** Two seconds of watching: a second passes, then R is pressed. *)
Example countdown_forced :
  countdown 2 (Demo.typing [NoKey; Key "R"; Key "q"])
  = (Ret true,
     {| trace := [Write (refresh_text 1 2); Select;
                  Write (refresh_text 1 1); Select; Write clear_line_text];
        stdin := [Key "q"];
        tty := Cooked |}).
Proof. reflexivity. Qed.

(** The interrupt signal during the countdown ends the process with the
    message and status 0, the terminal back in its mode. *)
Example interrupt_during_countdown :
  (run_script Demo.sqs MiniRe.module Demo.region Demo.in_order 1
     (Demo.watching 5) (Demo.typing [NoKey; CtrlC])).1 = Exited 0
  ∧ tty (run_script Demo.sqs MiniRe.module Demo.region Demo.in_order 1
           (Demo.watching 5) (Demo.typing [NoKey; CtrlC])).2 = Cooked.
Proof. split; reflexivity. Qed.

(** * Properties beyond the specification, across orders of completion *)

(** X8: for queues with different names, polled under two orders of
    completion, the two results are rendered alike: the same rows in the
    same order with the same widths. *)
Theorem rendering_same_for_any_completion (sqs : SqsClient) (current_region : string)
    (as_completed1 as_completed2 : list (result (option snapshot)) →
                                   list (result (option snapshot)))
    queue_urls workers include_in_flight w1 w2 results1 results2 w1' w2' w :
  (∀ futures, as_completed1 futures ≡ₚ futures) →
  (∀ futures, as_completed2 futures ≡ₚ futures) →
  NoDup (Py.last_segment <$> queue_urls) →
  get_queue_infos sqs as_completed1 queue_urls workers include_in_flight w1
  = (Ret results1, w1') →
  get_queue_infos sqs as_completed2 queue_urls workers include_in_flight w2
  = (Ret results2, w2') →
  display_results current_region results1 include_in_flight w
  = display_results current_region results2 include_in_flight w.
Proof.
  intros Hperm1 Hperm2 Hnames Hrun1 Hrun2.
  apply (poll_result_perm sqs as_completed1 Hperm1) in Hrun1.
  apply (poll_result_perm sqs as_completed2 Hperm2) in Hrun2.
  apply rendering_ignores_order.
  - by rewrite Hrun1, Hrun2.
  - rewrite Hrun1. eapply sublist_NoDup; [exact Hnames|]. apply snapshot_names_sublist.
Qed.

(** ** The properties beyond the specification at the stand-ins *)

Lemma check_queue_service_failure_witness :
  get_queue_attributes Odd.sqs Odd.denied (requested_attributes false)
  = Exc (ClientError "AccessDenied")
  ∧ check_queue Odd.sqs Odd.denied false Demo.quiet
    = (Exc (ClientError "AccessDenied"),
       log [GetQueueAttributes Odd.denied (requested_attributes false)] Demo.quiet).
Proof.
  split; [reflexivity|].
  apply (check_queue_service_failure Odd.sqs Odd.denied false
           (ClientError "AccessDenied") Demo.quiet).
  reflexivity.
Defined.

Lemma check_queue_malformed_response_witness :
  check_queue_outcome Odd.sqs Odd.bare false = Exc (KeyError "Attributes")
  ∧ check_queue_outcome Odd.sqs Odd.unlabelled false
    = Exc (KeyError "ApproximateNumberOfMessages")
  ∧ check_queue_outcome Odd.sqs Odd.wordy false
    = Exc (ValueError "invalid literal for int() with base 10: 'many'")
  ∧ check_queue_outcome Odd.sqs Odd.quoted false
    = Exc (ValueError ("invalid literal for int() with base 10: "
                       +:+ String Py.DQUOTE ("it's" +:+ String Py.DQUOTE EmptyString)))
  ∧ check_queue_outcome Odd.sqs Odd.half_wordy true
    = Exc (ValueError "invalid literal for int() with base 10: 'few'").
Proof.
  split; [|split; [|split; [|split]]].
  - apply (proj1 (check_queue_malformed_response Odd.sqs Odd.bare)). reflexivity.
  - eapply (proj1 (proj2 (check_queue_malformed_response Odd.sqs Odd.unlabelled)));
      reflexivity.
  - eapply (proj1 (proj2 (proj2 (check_queue_malformed_response Odd.sqs Odd.wordy)))
              false _ "many"); [reflexivity | reflexivity | reflexivity | simpl; lia | reflexivity].
  - eapply (proj1 (proj2 (proj2 (check_queue_malformed_response Odd.sqs Odd.quoted)))
              false _ "it's"); [reflexivity | reflexivity | reflexivity | simpl; lia | reflexivity].
  - eapply (proj2 (proj2 (proj2 (check_queue_malformed_response Odd.sqs Odd.half_wordy)))
              _ "2" 2 "few");
      [reflexivity | reflexivity | reflexivity | simpl; lia | reflexivity
      | reflexivity | reflexivity | simpl; lia | reflexivity].
Defined.

Lemma missing_in_flight_counts_as_zero_witness :
  get_queue_attributes Odd.sqs Odd.visible_only (requested_attributes true)
  = Ret {| Attributes := Some {[ "ApproximateNumberOfMessages" := "2" ]} |}
  ∧ check_queue_outcome Odd.sqs Odd.visible_only true = Ret (Some (2, 0, Odd.visible_only)).
Proof.
  split; [reflexivity|].
  apply (missing_in_flight_counts_as_zero Odd.sqs Odd.visible_only
           {[ "ApproximateNumberOfMessages" := "2" ]} "2" 2); reflexivity.
Defined.

Lemma demo_fetches_return url :
  url ∈ Demo.listed → ∃ r, check_queue_outcome Demo.sqs url true = Ret r.
Proof.
  unfold Demo.listed. intros Hurl.
  repeat (apply elem_of_cons in Hurl as [->|Hurl]; [eexists; reflexivity|]).
  by apply elem_of_nil in Hurl.
Qed.

Lemma poll_returns_every_filled_queue_witness :
  0 < 4
  ∧ ∃ results w',
      get_queue_infos Demo.sqs Demo.last_first Demo.listed 4 true Demo.quiet
      = (Ret results, w')
      ∧ results ≡ₚ [(3, 7, Demo.orders); (1, 0, Demo.dlq_orders)]
      ∧ (3, 7, Demo.orders) ∈ results.
Proof.
  split; [lia|].
  destruct (poll_returns_every_filled_queue Demo.sqs Demo.last_first last_first_perm
              Demo.listed 4 true Demo.quiet ltac:(lia) demo_fetches_return)
    as (results & w' & Hrun & _ & Hperm & Hin).
  exists results, w'. split; [exact Hrun|]. split; [exact Hperm|].
  apply (Hin Demo.orders 3 7); [|reflexivity|lia].
  apply elem_of_cons. by left.
Defined.

Lemma failed_fetch_aborts_poll_witness :
  check_queue_outcome Odd.sqs Odd.denied false = Exc (ClientError "AccessDenied")
  ∧ ∃ e url w',
      get_queue_infos Odd.sqs Demo.in_order [Odd.visible_only; Odd.denied] 4 false Demo.quiet
      = (Exc e, w')
      ∧ check_queue_outcome Odd.sqs url false = Exc e
      ∧ List.filter is_fetch (added Demo.quiet w')
        ≡ₚ fetch_events [Odd.visible_only; Odd.denied] false.
Proof.
  split; [reflexivity|].
  destruct (failed_fetch_aborts_poll Odd.sqs Demo.in_order in_order_perm
              [Odd.visible_only; Odd.denied] 4 false Demo.quiet Odd.denied
              (ClientError "AccessDenied") ltac:(lia))
    as (e & url & w' & Hrun & _ & Hout & Hfetched).
  - apply elem_of_cons. right. apply elem_of_cons. by left.
  - reflexivity.
  - by exists e, url, w'.
Defined.

Lemma no_workers_no_poll_witness :
  workers Cli.no_workers ≤ 0
  ∧ run_script Demo.sqs MiniRe.module Demo.region Demo.in_order 0 Cli.no_workers Demo.quiet
    = (Exited 1, log [Write "Reading list of queues..."; ListQueues] Demo.quiet).
Proof.
  split; [simpl; lia|].
  apply (no_workers_no_poll Demo.sqs MiniRe.module Demo.region Demo.in_order 0
           Cli.no_workers Demo.quiet {| QueueUrls := Some Demo.listed |});
    [reflexivity | reflexivity | reflexivity | simpl; lia].
Defined.

Lemma progress_counts_every_queue_witness :
  List.filter is_write
    (added Demo.quiet
       (get_queue_infos Demo.sqs Demo.last_first Demo.listed 4 false Demo.quiet).2)
  = [Write (progress_text 1 4); Write (progress_text 2 4);
     Write (progress_text 3 4); Write (progress_text 4 4)].
Proof.
  apply (progress_counts_every_queue Demo.sqs Demo.last_first last_first_perm
           Demo.listed 4 false Demo.quiet
           [(1, 0, Demo.dlq_orders); (3, 0, Demo.orders)]).
  vm_compute. reflexivity.
Defined.

Lemma demo_names_differ : NoDup (Py.last_segment <$> Demo.listed).
Proof. apply (bool_decide_unpack _). vm_compute. exact I. Qed.

Lemma rendering_same_for_any_completion_witness :
  display_results Demo.region [(3, 0, Demo.orders); (1, 0, Demo.dlq_orders)] false Demo.quiet
  = display_results Demo.region [(1, 0, Demo.dlq_orders); (3, 0, Demo.orders)] false Demo.quiet.
Proof.
  apply (rendering_same_for_any_completion Demo.sqs Demo.region Demo.in_order Demo.last_first
           Demo.listed 4 false Demo.quiet Demo.quiet
           [(3, 0, Demo.orders); (1, 0, Demo.dlq_orders)]
           [(1, 0, Demo.dlq_orders); (3, 0, Demo.orders)]
           (get_queue_infos Demo.sqs Demo.in_order Demo.listed 4 false Demo.quiet).2
           (get_queue_infos Demo.sqs Demo.last_first Demo.listed 4 false Demo.quiet).2
           Demo.quiet in_order_perm last_first_perm demo_names_differ);
    vm_compute; reflexivity.
Defined.

Lemma filter_narrows_witness :
  pattern_compiles MiniRe.module (Some "^dlq") = true
  ∧ ∃ kept,
      filter_queues_by_pattern MiniRe.module Demo.listed (Some "^dlq") Demo.quiet
      = (Ret kept, Demo.quiet)
      ∧ kept `sublist_of` Demo.listed
      ∧ filter_queues_by_pattern MiniRe.module kept (Some "^dlq") Demo.quiet
        = (Ret kept, Demo.quiet).
Proof.
  split; [reflexivity|].
  destruct (filter_narrows MiniRe.module Demo.listed (Some "^dlq") Demo.quiet eq_refl)
    as (kept & Hrun & Hsub & _ & Hagain).
  by exists kept.
Defined.

Lemma countdown_runs_out_witness :
  0 ≤ 2
  ∧ forallb uneventful [NoKey; Key "x"] = true
  ∧ countdown 2 (Demo.typing [NoKey; Key "x"; Key "q"])
    = (Ret false,
       {| trace := [Write (refresh_text 1 2); Select;
                    Write (refresh_text 1 1); Select; Write clear_line_text];
          stdin := [Key "q"];
          tty := Cooked |}).
Proof.
  split; [lia|]. split; [reflexivity|].
  apply (countdown_runs_out 2 [NoKey; Key "x"] [Key "q"]
           (Demo.typing [NoKey; Key "x"; Key "q"])); [lia|reflexivity..].
Defined.

Lemma countdown_interrupted_witness :
  0 < 3
  ∧ countdown 3 (Demo.typing [CtrlC; Key "r"])
    = (Exc KeyboardInterrupt, after_wait 1 3 [Key "r"] (Demo.typing [CtrlC; Key "r"])).
Proof.
  split; [lia|].
  apply (countdown_interrupted 3 [Key "r"] (Demo.typing [CtrlC; Key "r"]));
    [lia|reflexivity].
Defined.

Lemma run_calls_only_selected_witness :
  list_queues Demo.sqs = Ret {| QueueUrls := Some Demo.listed |}
  ∧ selected MiniRe.module {| QueueUrls := Some Demo.listed |} (pattern Cli.watching_o)
    = [Demo.orders; Demo.gone; Demo.dlq_orders]
  ∧ tty (run_script Demo.sqs MiniRe.module Demo.region Demo.last_first 3 Cli.watching_o
           (Demo.typing [NoKey; Key "R"; Key "x"; CtrlC])).2 = Cooked.
Proof.
  split; [reflexivity|]. split; [reflexivity|].
  apply (run_calls_only_selected Demo.sqs MiniRe.module Demo.region Demo.last_first
           3 Cli.watching_o (Demo.typing [NoKey; Key "R"; Key "x"; CtrlC])
           {| QueueUrls := Some Demo.listed |}).
  reflexivity.
Defined.

Lemma listing_failure_ends_run_witness :
  list_queues Demo.sqs_down = Exc (ClientError "ServiceUnavailable")
  ∧ run_script Demo.sqs_down MiniRe.module Demo.region Demo.in_order 2 Cli.watching_o
      Demo.quiet
    = (Exited 1, log [Write "Reading list of queues..."; ListQueues] Demo.quiet).
Proof.
  split; [reflexivity|].
  apply (listing_failure_ends_run Demo.sqs_down MiniRe.module Demo.region Demo.in_order
           2 Cli.watching_o Demo.quiet (ClientError "ServiceUnavailable")).
  reflexivity.
Defined.

Lemma watch_left_by_user_witness :
  (run_script Demo.sqs MiniRe.module Demo.region Demo.in_order 1 (Demo.watching 5)
     (Demo.typing [Key "Q"])).1 = Exited 0
  ∧ (run_script Demo.sqs MiniRe.module Demo.region Demo.in_order 1 (Demo.watching 5)
       (Demo.typing [CtrlC])).1 = Exited 0.
Proof.
  assert (Hpoll : ∀ keys,
            get_queue_infos Demo.sqs Demo.in_order
              (selected MiniRe.module {| QueueUrls := Some Demo.listed |}
                 (pattern (Demo.watching 5)))
              (workers (Demo.watching 5)) (include_in_flight (Demo.watching 5))
              (log (prelude_events MiniRe.module {| QueueUrls := Some Demo.listed |}
                      (pattern (Demo.watching 5))) (Demo.typing keys))
            = (Ret [(3, 0, Demo.orders); (1, 0, Demo.dlq_orders)],
               (get_queue_infos Demo.sqs Demo.in_order Demo.listed 4 false
                  (log [Write "Reading list of queues..."; ListQueues]
                     (Demo.typing keys))).2)).
  { intros keys. vm_compute. reflexivity. }
  split.
  - destruct (watch_left_by_user Demo.sqs MiniRe.module Demo.region Demo.in_order
                0 (Demo.watching 5) (Demo.typing [Key "Q"])
                {| QueueUrls := Some Demo.listed |} _ _ 5
                eq_refl ltac:(lia) eq_refl eq_refl (Hpoll _)) as [Hquit _].
    rewrite (Hquit "Q"%char []); [reflexivity | reflexivity | by right].
  - destruct (watch_left_by_user Demo.sqs MiniRe.module Demo.region Demo.in_order
                0 (Demo.watching 5) (Demo.typing [CtrlC])
                {| QueueUrls := Some Demo.listed |} _ _ 5
                eq_refl ltac:(lia) eq_refl eq_refl (Hpoll _)) as [_ Hinterrupt].
    rewrite (Hinterrupt []); reflexivity.
Defined.

Lemma lines_overwrite_cleanly_witness :
  0 < 3 ≤ 120
  ∧ Py.len (refresh_text (Py.len (Py.str 120)) 3)
    = Py.len (refresh_text (Py.len (Py.str 120)) 120)
  ∧ Py.len (progress_text 9 12) ≤ Py.len (progress_text (9 + 1) 12).
Proof.
  split; [lia|]. split.
  - apply (proj1 lines_overwrite_cleanly 120 3). lia.
  - apply (proj2 lines_overwrite_cleanly 9 12). lia.
Defined.

Lemma display_name_follows_last_slash_witness :
  has_slash "dlq-orders" = false
  ∧ Py.last_segment ("https://sqs.eu-west-1.amazonaws.com/123456789012" +:+ String "/" "dlq-orders")
    = "dlq-orders".
Proof.
  split; [reflexivity|].
  apply (proj2 (proj2 display_name_follows_last_slash)). reflexivity.
Defined.
